(** * ESP_LiveView: the Flask image server [servercodes/app.py]

    A shallow embedding of the upload / latest / images handlers.  The
    handlers are written once, as programs over the effects the source
    performs (clock, file system under the working directory, the
    module-level [latest_image] dict).  Two semantics are given to those
    programs: [exec] runs one handler to completion, the way a
    single-threaded server does; [sched] interleaves the atomic effects of
    several handler invocations, the way the threaded development server
    started by [app.run] does. *)

From Stdlib Require Import Ascii NArith ZArith Lia.
From Stdlib Require QArith.
From stdpp Require Import base option list gmap strings pretty.

Local Open Scope N_scope.
Local Open Scope nat_scope.

(** Python [bytes]: a list of octets. *)
Abbreviation byte := Byte.byte.

(** ** Python string helpers *)

Module Str.

(** [c in s] for a one-character [c]. *)
Fixpoint contains (c : ascii) (s : string) : bool :=
  match s with
  | EmptyString => false
  | String a s' => if Ascii.eqb a c then true else contains c s'
  end.

(** [s.split(c)] for a one-character separator: never empty, one more
    element than there are separators. *)
Fixpoint split (c : ascii) (s : string) : list string :=
  match s with
  | EmptyString => [EmptyString]
  | String a s' =>
      if Ascii.eqb a c then EmptyString :: split c s'
      else match split c s' with
           | h :: t => String a h :: t
           | [] => [String a EmptyString]
           end
  end.

(** [sep.join(l)]. *)
Fixpoint join (sep : string) (l : list string) : string :=
  match l with
  | [] => EmptyString
  | [x] => x
  | x :: l' => x +:+ sep +:+ join sep l'
  end.

(** [s.startswith(p)]. *)
Fixpoint startswith (p s : string) : bool :=
  match p, s with
  | EmptyString, _ => true
  | String a p', String b s' => Ascii.eqb b a && startswith p' s'
  | String _ _, EmptyString => false
  end.

(** [s.endswith(c)] for a one-character [c]. *)
Fixpoint endswith_char (c : ascii) (s : string) : bool :=
  match s with
  | EmptyString => false
  | String a EmptyString => Ascii.eqb a c
  | String _ s' => endswith_char c s'
  end.

(** The part of [s] after the first [c]; [None] when [c] does not occur. *)
Fixpoint after_first (c : ascii) (s : string) : option string :=
  match s with
  | EmptyString => None
  | String a s' => if Ascii.eqb a c then Some s' else after_first c s'
  end.

(** How many times [c] occurs in [s]. *)
Fixpoint count (c : ascii) (s : string) : nat :=
  match s with
  | EmptyString => 0
  | String a s' => (if Ascii.eqb a c then 1 else 0) + count c s'
  end.

End Str.

(** ** The clock and the file name generator *)

(** [datetime.now()]: the local wall-clock time, microseconds included. *)
Record datetime := {
  year : N; month : N; day : N;
  hour : N; minute : N; second : N;
  microsecond : N
}.

(** The ranges of Python's [datetime], for the years in which [%Y] prints
    four digits. *)
Definition valid_datetime (d : datetime) : Prop :=
  (1000 <= year d <= 9999 /\ 1 <= month d <= 12 /\ 1 <= day d <= 31 /\
   hour d < 24 /\ minute d < 60 /\ second d < 60 /\ microsecond d < 1000000)%N.

Definition digit (n : N) : ascii := ascii_of_N (48 + n mod 10).

(** [%m], [%d], [%H], [%M], [%S]: two digits, zero padded. *)
Definition pad2 (n : N) : string :=
  String (digit (n / 10)) (String (digit n) EmptyString).

(** [%Y] for the years 1000 to 9999, where it prints the four digits of
    the year; below 1000 the C library decides about padding, and the
    statements that depend on the format assume [valid_datetime]. *)
Definition pad4 (n : N) : string :=
  String (digit (n / 1000)) (String (digit (n / 100)) (pad2 n)).

(** [now.strftime("%Y%m%d_%H%M%S")] *)
Definition strftime (d : datetime) : string :=
  pad4 (year d) +:+ pad2 (month d) +:+ pad2 (day d) +:+ "_" +:+
  pad2 (hour d) +:+ pad2 (minute d) +:+ pad2 (second d).

(** [f"image_{timestamp}.jpg"] *)
Definition image_name (timestamp : string) : string :=
  "image_" +:+ timestamp +:+ ".jpg".

Definition UPLOAD_FOLDER : string := "uploads".

(** [os.path.join(a, b)] on POSIX, two arguments. *)
Definition os_path_join (a b : string) : string :=
  if Str.startswith "/" b then b
  else if String.eqb a "" || Str.endswith_char "/" a then a +:+ b
  else a +:+ "/" +:+ b.

(** Truncation of the clock to whole seconds. *)
Definition same_second (d1 d2 : datetime) : Prop :=
  year d1 = year d2 /\ month d1 = month d2 /\ day d1 = day d2 /\
  hour d1 = hour d2 /\ minute d1 = minute d2 /\ second d1 = second d2.

(** ** [base64.b64decode(s)] with [validate=False]

    The library function the form-field branch calls (CPython 3.11 to 3.13):
    a [str] argument is first encoded as ASCII, then handed to
    [binascii.a2b_base64] in its non-strict mode, which skips every
    character outside the alphabet, stops at a complete pad sequence, and
    raises [binascii.Error] when the data characters do not fill the last
    quad. *)

Module Base64.

Inductive result :=
| Ok (data : list byte)
| Error (msg : string).

(** [table_a2b_base64]: the six-bit value of an alphabet character. *)
Definition table_a2b (c : ascii) : option N :=
  let n := N_of_ascii c in
  (if (65 <=? n) && (n <=? 90) then Some (n - 65)
   else if (97 <=? n) && (n <=? 122) then Some (n - 71)
   else if (48 <=? n) && (n <=? 57) then Some (n + 4)
   else if n =? 43 then Some 62
   else if n =? 47 then Some 63
   else None)%N.

Definition uchar (n : N) : byte := byte_of_ascii (ascii_of_N n).

Definition finish (quad_pos : nat) (out : list byte) : result :=
  match quad_pos with
  | 0 => Ok out
  | 1 =>
      Error ("Invalid base64-encoded string: number of data characters ("
             +:+ pretty (length out / 3 * 4 + 1)
             +:+ ") cannot be 1 more than a multiple of 4")
  | _ => Error "Incorrect padding"
  end.

(** The decoding loop; [out] is the output written so far. *)
Fixpoint a2b_loop (s : string) (quad_pos : nat) (leftchar : N) (pads : nat)
    (out : list byte) : result :=
  match s with
  | EmptyString => finish quad_pos out
  | String this_ch s' =>
      if Ascii.eqb this_ch "=" then
        if (2 <=? quad_pos) && (4 <=? quad_pos + S pads) then Ok out
        else a2b_loop s' quad_pos leftchar
               (if 2 <=? quad_pos then S pads else pads) out
      else
        match table_a2b this_ch with
        | None => a2b_loop s' quad_pos leftchar pads out
        | Some v =>
            match quad_pos with
            | 0 => a2b_loop s' 1 v 0 out
            | 1 =>
                a2b_loop s' 2 (N.land v 15) 0
                  (out ++ [uchar (N.lor (N.shiftl leftchar 2) (N.shiftr v 4))])
            | 2 =>
                a2b_loop s' 3 (N.land v 3) 0
                  (out ++ [uchar (N.lor (N.shiftl leftchar 4) (N.shiftr v 2))])
            | _ =>
                a2b_loop s' 0 0%N 0
                  (out ++ [uchar (N.lor (N.shiftl leftchar 6) v)])
            end
        end
  end.

Fixpoint is_ascii (s : string) : bool :=
  match s with
  | EmptyString => true
  | String c s' => (N_of_ascii c <? 128)%N && is_ascii s'
  end.

Definition b64decode (s : string) : result :=
  if is_ascii s then a2b_loop s 0 0%N 0 []
  else Error "string argument should contain only ASCII characters".

End Base64.

(** ** Requests and responses *)

(** A werkzeug [FileStorage]: one part of a multipart body. *)
Record FileStorage := {
  fs_filename : string;
  fs_stream : list byte
}.

(** A werkzeug [MultiDict]: [k in d] looks for any entry with the key,
    [d[k]] is the first one. *)
Fixpoint md_get {A} (k : string) (d : list (string * A)) : option A :=
  match d with
  | [] => None
  | (k', v) :: d' => if String.eqb k' k then Some v else md_get k d'
  end.

Definition md_in {A} (k : string) (d : list (string * A)) : bool :=
  match md_get k d with Some _ => true | None => false end.

(** The two parts of [flask.request] the upload handler reads. *)
Record Request := {
  files : list (string * FileStorage);
  form : list (string * string)
}.

(** A JSON value as [jsonify] receives it: a [str] or [None]. *)
Inductive jval :=
| JStr (s : string)
| JNull.

Definition jopt (o : option string) : jval :=
  match o with Some s => JStr s | None => JNull end.

Inductive body :=
| Json (fields : list (string * jval))
| Raw (data : list byte)
| ErrorPage.

(** What a view returns: [(body, status)]. *)
Record Response := {
  r_body : body;
  r_status : nat
}.

Definition jsonify (fields : list (string * jval)) (status : nat) : Response :=
  {| r_body := Json fields; r_status := status |}.

(** ** Effects

    Everything a handler does besides computing: reading the clock,
    opening and writing a file, reading one, and reading or assigning one
    key of the module-level dict [latest_image].  Each constructor is one
    atomic action; a thread switch can happen between any two of them. *)

Inductive exn :=
| NotFound
| Exc (msg : string).

(** [str(e)] *)
Definition str (e : exn) : string :=
  match e with
  | NotFound =>
      "404 Not Found: The requested URL was not found on the server. If you entered the URL manually please check your spelling and try again."
  | Exc msg => msg
  end.

Inductive field := Filename | Timestamp.

Inductive prog (R : Type) : Type :=
| Ret (r : R)
| Raise (e : exn)
| Now (k : datetime -> prog R)
| OpenW (path : string) (k : option string -> prog R)
| WriteAll (path : string) (data : list byte) (k : option string -> prog R)
| ReadFile (path : string) (k : option (list byte) -> prog R)
| RegGet (f : field) (k : option string -> prog R)
| RegSet (f : field) (v : string) (k : prog R).

Arguments Ret {R} r.
Arguments Raise {R} e.
Arguments Now {R} k.
Arguments OpenW {R} path k.
Arguments WriteAll {R} path data k.
Arguments ReadFile {R} path k.
Arguments RegGet {R} f k.
Arguments RegSet {R} f v k.

Fixpoint bind {A B} (p : prog A) (f : A -> prog B) : prog B :=
  match p with
  | Ret r => f r
  | Raise e => Raise e
  | Now k => Now (fun d => bind (k d) f)
  | OpenW path k => OpenW path (fun r => bind (k r) f)
  | WriteAll path data k => WriteAll path data (fun r => bind (k r) f)
  | ReadFile path k => ReadFile path (fun r => bind (k r) f)
  | RegGet fl k => RegGet fl (fun v => bind (k v) f)
  | RegSet fl v k => RegSet fl v (bind k f)
  end.

(** [try: p except Exception as e: h e] *)
Fixpoint try_except {R} (p : prog R) (h : exn -> prog R) : prog R :=
  match p with
  | Ret r => Ret r
  | Raise e => h e
  | Now k => Now (fun d => try_except (k d) h)
  | OpenW path k => OpenW path (fun r => try_except (k r) h)
  | WriteAll path data k => WriteAll path data (fun r => try_except (k r) h)
  | ReadFile path k => ReadFile path (fun r => try_except (k r) h)
  | RegGet fl k => RegGet fl (fun v => try_except (k v) h)
  | RegSet fl v k => RegSet fl v (try_except k h)
  end.

Notation "'let*' x := p 'in' q" := (bind p (fun x => q))
  (at level 10, x name, p at level 100, q at level 200).
Notation "p >>> q" := (bind p (fun _ => q))
  (at level 90, right associativity).

(** What a file operation hands back: [None], or the text of the
    [OSError] it raises. *)
Definition io_result (r : option string) : prog unit :=
  match r with
  | None => Ret tt
  | Some msg => Raise (Exc msg)
  end.

Definition datetime_now : prog datetime := Now Ret.
Definition open_wb (path : string) : prog unit := OpenW path io_result.
Definition write (path : string) (data : list byte) : prog unit :=
  WriteAll path data io_result.
Definition read_file (path : string) : prog (option (list byte)) :=
  ReadFile path Ret.
Definition latest_get (f : field) : prog (option string) := RegGet f Ret.
Definition latest_set (f : field) (v : string) : prog unit := RegSet f v (Ret tt).

(** [d[k]] on a [MultiDict]; a missing key raises [BadRequestKeyError]. *)
Definition getitem {A} (k : string) (d : list (string * A)) : prog A :=
  match md_get k d with
  | Some v => Ret v
  | None =>
      Raise (Exc "400 Bad Request: The browser (or proxy) sent a request that this server could not understand.")
  end.

(** [l[i]] on a list; out of range raises [IndexError]. *)
Definition index {A} (l : list A) (i : nat) : prog A :=
  match l !! i with
  | Some v => Ret v
  | None => Raise (Exc "list index out of range")
  end.

Definition b64decode (s : string) : prog (list byte) :=
  match Base64.b64decode s with
  | Base64.Ok data => Ret data
  | Base64.Error msg => Raise (Exc msg)
  end.

(** [FileStorage.save(dst)]: open the destination for writing, copy the
    stream into it. *)
Definition save (f : FileStorage) (dst : string) : prog unit :=
  open_wb dst >>> write dst (fs_stream f).

(** ** [flask.send_from_directory]

    The library function behind the retrieval route, with the two helpers
    that decide which path reaches the file system: [posixpath.normpath]
    and werkzeug's [safe_join].  The directory is resolved against the
    application root, which is the working directory when the server is
    started as [python app.py]. *)

Module Posixpath.

Definition is_dot (comp : string) : bool :=
  String.eqb comp "" || String.eqb comp ".".

(** One turn of the loop over [path.split('/')].  [new_comps] is kept
    as a stack, last component first: [append] is a cons, [pop] drops
    the head. *)
Definition push_comp (initial_slashes : nat) (new_comps : list string)
    (comp : string) : list string :=
  if is_dot comp then new_comps
  else if negb (String.eqb comp "..")
          || (Nat.eqb initial_slashes 0 && bool_decide (new_comps = []))
          || bool_decide (head new_comps = Some "..")
       then comp :: new_comps
       else tail new_comps.

Definition initial_slashes (path : string) : nat :=
  if Str.startswith "/" path then
    if Str.startswith "//" path && negb (Str.startswith "///" path) then 2
    else 1
  else 0.

Fixpoint slashes (n : nat) : string :=
  match n with
  | 0 => EmptyString
  | S n' => String "/" (slashes n')
  end.

Definition normpath (path : string) : string :=
  if String.eqb path "" then "."
  else
    let n := initial_slashes path in
    let comps := rev (fold_left (push_comp n) (Str.split "/" path) []) in
    let path := slashes n +:+ Str.join "/" comps in
    if String.eqb path "" then "." else path.

End Posixpath.

(** [werkzeug.security.safe_join(directory, filename)] on POSIX, where no
    alternative separator exists. *)
Definition safe_join (directory filename : string) : option string :=
  let directory := if String.eqb directory "" then "." else directory in
  let filename :=
    if String.eqb filename "" then filename else Posixpath.normpath filename in
  if Str.startswith "/" filename
     || String.eqb filename ".."
     || Str.startswith "../" filename
  then None
  else Some (os_path_join directory filename).

Definition send_from_directory (directory path : string) : prog Response :=
  match safe_join directory path with
  | None => Raise NotFound
  | Some path_str =>
      let* r := read_file path_str in
      match r with
      | None => Raise NotFound
      | Some data => Ret {| r_body := Raw data; r_status := 200 |}
      end
  end.

(** ** The handlers of [app.py] *)

(** [bool(v)] for a value that is [None] or a [str]. *)
Definition truthy (v : option string) : bool :=
  match v with
  | None => false
  | Some s => negb (String.eqb s "")
  end.

(** [f"{v}"] for a value that is [None] or a [str]. *)
Definition format (v : option string) : string :=
  match v with
  | None => "None"
  | Some s => s
  end.

(** Lines 31 to 59: the branch that writes the blob.  It leaves the view
    early with a response, or falls through with [(filename, timestamp)]. *)
Definition store_image (request : Request)
    : prog (Response + string * string) :=
  if md_in "image" (files request) then
    let* image_file := getitem "image" (files request) in
    if String.eqb (fs_filename image_file) "" then
      Ret (inl (jsonify [("error", JStr "No image selected")] 400))
    else
      let* now := datetime_now in
      let timestamp := strftime now in
      let filename := image_name timestamp in
      let filepath := os_path_join UPLOAD_FOLDER filename in
      save image_file filepath >>>
      Ret (inr (filename, timestamp))
  else
    let* image_data := getitem "image" (form request) in
    let* image_data :=
      if Str.contains "," image_data
      then index (Str.split "," image_data) 1
      else Ret image_data in
    let* now := datetime_now in
    let timestamp := strftime now in
    let filename := image_name timestamp in
    let filepath := os_path_join UPLOAD_FOLDER filename in
    open_wb filepath >>>
    let* data := b64decode image_data in
    write filepath data >>>
    Ret (inr (filename, timestamp)).

(** Lines 27 to 69: the body of the [try], for a request whose body
    werkzeug could parse when line 28 asked for it. *)
Definition upload_body (request : Request) : prog Response :=
  if negb (md_in "image" (files request)) && negb (md_in "image" (form request))
  then Ret (jsonify [("error", JStr "No image data found")] 400)
  else
    let* r := store_image request in
    match r with
    | inl response => Ret response
    | inr (filename, timestamp) =>
        latest_set Filename filename >>>
        latest_set Timestamp timestamp >>>
        Ret (jsonify [("status", JStr "success");
                      ("filename", JStr filename);
                      ("timestamp", JStr timestamp)] 200)
    end.

Definition upload_image (request : Request) : prog Response :=
  try_except (upload_body request)
    (fun e => Ret (jsonify [("error", JStr (str e))] 500)).

Definition get_latest_image : prog Response :=
  let* c := latest_get Filename in
  if truthy c then
    let* filename := latest_get Filename in
    let* timestamp := latest_get Timestamp in
    let* f := latest_get Filename in
    Ret (jsonify [("filename", jopt filename);
                  ("timestamp", jopt timestamp);
                  ("url", JStr ("/images/" +:+ format f))] 200)
  else Ret (jsonify [("error", JStr "No image uploaded yet")] 404).

Definition get_image (filename : string) : prog Response :=
  send_from_directory UPLOAD_FOLDER filename.

(** What Flask does with an exception that leaves a view: an
    [HTTPException] becomes its own response, anything else the generic
    500 page. *)
Definition dispatch (view : prog Response) : prog Response :=
  try_except view
    (fun e =>
       Ret {| r_body := ErrorPage;
              r_status := match e with NotFound => 404 | Exc _ => 500 end |}).

(** ** State and semantics *)

(** The module-level dict [latest_image], with its two fixed keys. *)
Record latest := {
  filename : option string;
  timestamp : option string
}.

(** The process state: the regular files below the working directory,
    keyed by path, and [latest_image]. *)
Record state := {
  disk : gmap string (list byte);
  latest_image : latest
}.

Definition set_disk (d : gmap string (list byte)) (s : state) : state :=
  {| disk := d; latest_image := latest_image s |}.

Definition get_field (f : field) (l : latest) : option string :=
  match f with Filename => filename l | Timestamp => timestamp l end.

Definition set_field (f : field) (v : string) (l : latest) : latest :=
  match f with
  | Filename => {| filename := Some v; timestamp := timestamp l |}
  | Timestamp => {| filename := filename l; timestamp := Some v |}
  end.

Definition set_latest (f : field) (v : string) (s : state) : state :=
  {| disk := disk s; latest_image := set_field f v (latest_image s) |}.

(** The state at process start, over whatever the upload folder holds. *)
Definition boot (d : gmap string (list byte)) : state :=
  {| disk := d; latest_image := {| filename := None; timestamp := None |} |}.

(** What the environment decides for one handler invocation: the clock
    reading, and whether its file operation fails. *)
Inductive io_fault :=
| NoFault
| OpenFails (msg : string)
| WriteFails (msg : string) (written : nat).

Record env := {
  clock : datetime;
  fault : io_fault
}.

(** [open(path, "wb")] creates or truncates. *)
Definition truncate (path : string) (d : gmap string (list byte))
    : gmap string (list byte) :=
  <[path := []]> d.

(** A write of [data] at offset 0 of an open file: bytes beyond it stay. *)
Definition overlay (path : string) (data : list byte)
    (d : gmap string (list byte)) : gmap string (list byte) :=
  <[path := data ++ drop (length data) (default [] (d !! path))]> d.

Inductive event :=
| EvClock
| EvOpen (path : string)
| EvWrite (path : string)
| EvFail (path : string)
| EvRead (path : string)
| EvGet (f : field)
| EvSet (f : field) (v : string).

(** One atomic action of a thread; [None] once it has returned or raised. *)
Definition step {R} (e : env) (p : prog R) (s : state)
    : option (event * prog R * state) :=
  match p with
  | Ret _ | Raise _ => None
  | Now k => Some (EvClock, k (clock e), s)
  | OpenW path k =>
      match fault e with
      | OpenFails msg => Some (EvFail path, k (Some msg), s)
      | _ => Some (EvOpen path, k None, set_disk (truncate path (disk s)) s)
      end
  | WriteAll path data k =>
      match fault e with
      | WriteFails msg n =>
          Some (EvFail path, k (Some msg),
                set_disk (overlay path (take n data) (disk s)) s)
      | _ =>
          Some (EvWrite path, k None,
                set_disk (overlay path data (disk s)) s)
      end
  | ReadFile path k => Some (EvRead path, k (disk s !! path), s)
  | RegGet f k => Some (EvGet f, k (get_field f (latest_image s)), s)
  | RegSet f v k => Some (EvSet f v, k, set_latest f v s)
  end.

Inductive outcome (R : Type) :=
| Returned (r : R)
| Raised (e : exn).

Arguments Returned {R} r.
Arguments Raised {R} e.

(** A handler run to completion with no other thread in between. *)
Fixpoint exec {R} (e : env) (p : prog R) (s : state) : outcome R * state :=
  match p with
  | Ret r => (Returned r, s)
  | Raise x => (Raised x, s)
  | Now k => exec e (k (clock e)) s
  | OpenW path k =>
      match fault e with
      | OpenFails msg => exec e (k (Some msg)) s
      | _ => exec e (k None) (set_disk (truncate path (disk s)) s)
      end
  | WriteAll path data k =>
      match fault e with
      | WriteFails msg n =>
          exec e (k (Some msg))
            (set_disk (overlay path (take n data) (disk s)) s)
      | _ => exec e (k None) (set_disk (overlay path data (disk s)) s)
      end
  | ReadFile path k => exec e (k (disk s !! path)) s
  | RegGet f k => exec e (k (get_field f (latest_image s))) s
  | RegSet f v k => exec e k (set_latest f v s)
  end.

(** ** Requests served one after the other *)

Inductive op :=
| Upload (e : env) (request : Request)
| Latest
| Image (name : string).

Definition quiet : env :=
  {| clock := {| year := 1970; month := 1; day := 1; hour := 0; minute := 0;
                 second := 0; microsecond := 0 |}%N;
     fault := NoFault |}.

Definition op_env (o : op) : env :=
  match o with Upload e _ => e | _ => quiet end.

Definition op_view (o : op) : prog Response :=
  dispatch match o with
           | Upload _ request => upload_image request
           | Latest => get_latest_image
           | Image name => get_image name
           end.

(** The response of a dispatched view (which never raises). *)
Definition reply (r : outcome Response) : Response :=
  match r with
  | Returned resp => resp
  | Raised _ => {| r_body := ErrorPage; r_status := 500 |}
  end.

Definition serve (o : op) (s : state) : Response * state :=
  let '(r, s') := exec (op_env o) (op_view o) s in (reply r, s').

Fixpoint serve_all (ops : list op) (s : state) : list Response * state :=
  match ops with
  | [] => ([], s)
  | o :: ops' =>
      let '(r, s') := serve o s in
      let '(rs, s'') := serve_all ops' s' in
      (r :: rs, s'')
  end.

(** ** Requests served by interleaved threads *)

Record config := {
  threads : list (env * prog Response);
  shared : state;
  trace : list event
}.

Definition spawn (ops : list op) (s : state) : config :=
  {| threads := map (fun o => (op_env o, op_view o)) ops;
     shared := s;
     trace := [] |}.

(** The scheduler lets thread [i] perform its next atomic action. *)
Definition sched_step (c : config) (i : nat) : config :=
  match threads c !! i with
  | None => c
  | Some (e, p) =>
      match step e p (shared c) with
      | None => c
      | Some (ev, p', s') =>
          {| threads := <[i := (e, p')]> (threads c);
             shared := s';
             trace := trace c ++ [ev] |}
      end
  end.

Definition sched (schedule : list nat) (c : config) : config :=
  fold_left sched_step schedule c.

(** The response of thread [i], once it has one. *)
Definition result_of (c : config) (i : nat) : option Response :=
  match threads c !! i with
  | Some (_, Ret r) => Some r
  | _ => None
  end.

(** ** Vocabulary of the statements *)

(** The timestamp and the storage key an upload served under [e] gets. *)
Abbreviation stamp e := (strftime (clock e)).
Abbreviation key e := (image_name (strftime (clock e))).

(** The two JSON bodies the upload view builds. *)
Definition success (f t : string) : Response :=
  jsonify [("status", JStr "success");
           ("filename", JStr f);
           ("timestamp", JStr t)] 200.

Definition failure (msg : string) (status : nat) : Response :=
  jsonify [("error", JStr msg)] status.

(** The page Flask renders for an exception that left a view. *)
Definition page (status : nat) : Response :=
  {| r_body := ErrorPage; r_status := status |}.

(** The descriptor the query view builds. *)
Definition descriptor (f t : string) : Response :=
  jsonify [("filename", JStr f);
           ("timestamp", JStr t);
           ("url", JStr ("/images/" +:+ f))] 200.

(** Where the blob of storage key [f] lives. *)
Definition blob_path (f : string) : string := os_path_join UPLOAD_FOLDER f.

(** The text handed to the decoder for a form field [v] (lines 49, 50). *)
Definition form_payload (v : string) : string :=
  if Str.contains "," v then default v (Str.split "," v !! 1) else v.

(** The bytes a request asks to store. *)
Inductive carries (request : Request) : list byte -> Prop :=
| carries_file file :
    md_get "image" (files request) = Some file ->
    carries request (fs_stream file)
| carries_form v data :
    md_get "image" (files request) = None ->
    md_get "image" (form request) = Some v ->
    Base64.b64decode (form_payload v) = Base64.Ok data ->
    carries request data.

(** What one upload, served alone, can do to the state, and the response
    that goes with it: rejected or failed before the file was opened,
    failed after it was opened, or stored. *)
Inductive upload_outcome (e : env) (request : Request) (s : state)
    : Response -> state -> Prop :=
| up_rejected msg :
    upload_outcome e request s (failure msg 400) s
| up_failed msg :
    upload_outcome e request s (failure msg 500) s
| up_broken msg partial :
    upload_outcome e request s (failure msg 500)
      (set_disk
         (<[blob_path (key e) := partial]> (disk s))
         s)
| up_stored data :
    carries request data ->
    upload_outcome e request s
      (success (key e) (stamp e))
      {| disk :=
           <[blob_path (key e) := data]> (disk s);
         latest_image :=
           {| filename := Some (key e);
              timestamp := Some (stamp e) |} |}.

(** The register is empty, or holds the key and timestamp of one clock
    reading, with a blob under that key. *)
Definition consistent (s : state) : Prop :=
  match filename (latest_image s), timestamp (latest_image s) with
  | None, None => True
  | Some f, Some t =>
      (exists d, t = strftime d) /\ f = image_name t /\
      is_Some (disk s !! blob_path f)
  | _, _ => False
  end.

(** A path component that names an entry of the directory it is looked
    up in: not the parent link, and without a separator. *)
Definition plain (c : string) : Prop :=
  c <> ".." /\ Str.contains "/" c = false.

(** A path that descends from the upload folder and never climbs. *)
Definition inside_root (path : string) : Prop :=
  exists comps,
    path = UPLOAD_FOLDER +:+ "/" +:+ Str.join "/" comps /\ Forall plain comps.

(** The shape of [new_comps] while [normpath] scans a relative path:
    parent links at the bottom only. *)
Definition stack_ok (stack : list string) : Prop :=
  exists normals dd,
    stack = normals ++ dd /\ Forall plain normals /\ Forall (eq "..") dd.

(** A thread that has left trace [t] behind is [safe] when, whatever the
    environment answers from here on, it assigns [latest_image['filename']]
    only a key whose blob it, or a thread before it, has finished writing. *)
Fixpoint safe {R} (t : list event) (p : prog R) : Prop :=
  match p with
  | Ret _ | Raise _ => True
  | Now k => forall d, safe t (k d)
  | OpenW path k => forall r, safe t (k r)
  | WriteAll path data k =>
      safe (t ++ [EvWrite path]) (k None) /\ forall msg, safe t (k (Some msg))
  | ReadFile path k => forall r, safe t (k r)
  | RegGet f k => forall v, safe t (k v)
  | RegSet f v k =>
      (f = Filename -> EvWrite (blob_path v) ∈ t) /\ safe t k
  end.

(** In a trace, every assignment of a key to the register comes after a
    completed write of that key's blob. *)
Definition ordered (t : list event) : Prop :=
  forall j f, t !! j = Some (EvSet Filename f) ->
    exists i, i < j /\ t !! i = Some (EvWrite (blob_path f)).

(** The invariant of the interleaved server. *)
Record coherent (c : config) : Prop := {
  co_threads : forall i e p, threads c !! i = Some (e, p) -> safe (trace c) p;
  co_latest : forall f, filename (latest_image (shared c)) = Some f ->
                EvWrite (blob_path f) ∈ trace c;
  co_disk : forall path, EvWrite path ∈ trace c ->
              is_Some (disk (shared c) !! path);
  co_ordered : ordered (trace c)
}.

(** A request that gets past validation, to the point where the blob
    file is opened. *)
Definition reaches_store (request : Request) : Prop :=
  (exists file, md_get "image" (files request) = Some file /\
                fs_filename file <> "") \/
  (md_get "image" (files request) = None /\
   is_Some (md_get "image" (form request))).

(** The program a thread is left with once it has run to completion. *)
Definition halted {R} (o : outcome R) : prog R :=
  match o with Returned r => Ret r | Raised x => Raise x end.

(** A thread that has answered request [o] with [r]. *)
Definition answered (o : op) (r : Response) : env * prog Response :=
  (op_env o, Ret r).

(** ** Sample clock readings and requests *)

Definition noon : datetime :=
  {| year := 2024; month := 1; day := 1; hour := 12; minute := 0; second := 0;
     microsecond := 250 |}%N.

Definition noon_later : datetime :=
  {| year := 2024; month := 1; day := 1; hour := 12; minute := 0; second := 0;
     microsecond := 999000 |}%N.

Definition one_past_noon : datetime :=
  {| year := 2024; month := 1; day := 1; hour := 12; minute := 0; second := 1;
     microsecond := 0 |}%N.

Definition calm (now : datetime) : env := {| clock := now; fault := NoFault |}.

Definition abc : list byte := [Byte.x41; Byte.x42; Byte.x43].
Definition xyz : list byte := [Byte.x78; Byte.x79; Byte.x7a].

(** What [requests.post(url, files={'image': (name, data)})] sends. *)
Definition multipart (name : string) (data : list byte) : Request :=
  {| files := [("image", {| fs_filename := name; fs_stream := data |})];
     form := [] |}.

(** What [requests.post(url, data={'image': v})] sends. *)
Definition field_only (v : string) : Request :=
  {| files := []; form := [("image", v)] |}.

Definition both_forms : Request :=
  {| files := [("image", {| fs_filename := "a.jpg"; fs_stream := abc |})];
     form := [("image", "eHl6")] |}.

Definition upload_then_query : list op :=
  [Upload (calm noon) (multipart "frame.jpg" abc); Latest].

Definition two_uploads_one_query : list op :=
  [Upload (calm noon) (multipart "a.jpg" abc);
   Upload (calm one_past_noon) (multipart "b.jpg" xyz);
   Latest].

(** The first upload runs to its end, the second up to its assignment of
    [latest_image['filename']], then the query runs. *)
Definition query_between_assignments : list nat :=
  [0; 0; 0; 0; 0; 1; 1; 1; 1; 2; 2; 2; 2].



(** * Further vocabulary: histories of requests

    Used by the statements about what a sequence, or an interleaving, of
    requests leaves behind. *)

(** A request that is no upload in the second of [d]: the only requests
    that write under the key of [d] are uploads whose clock reads that
    second. *)
Definition other_second (d : datetime) (o : op) : Prop :=
  match o with
  | Upload e _ => valid_datetime (clock e) /\ ~ same_second d (clock e)
  | _ => True
  end.

(** The two [GET] views. *)
Definition read_only (o : op) : bool :=
  match o with Upload _ _ => false | _ => true end.

(** The clock of the last upload of [ops] that was answered 200. *)
Fixpoint last_accepted (ops : list op) (rs : list Response) : option env :=
  match ops, rs with
  | o :: ops', r :: rs' =>
      match last_accepted ops' rs' with
      | Some e => Some e
      | None =>
          match o with
          | Upload e _ => if Nat.eqb (r_status r) 200 then Some e else None
          | _ => None
          end
      end
  | _, _ => None
  end.

(** The register names a file the generator of lines 39 and 54 made up. *)
Definition named (s : state) : Prop :=
  exists t, filename (latest_image s) = Some (image_name t).

(** A form field that [base64.b64decode] refuses (line 59). *)
Definition undecodable (request : Request) : Prop :=
  exists v msg,
    md_get "image" (files request) = None /\
    md_get "image" (form request) = Some v /\
    Base64.b64decode (form_payload v) = Base64.Error msg.

(** What line 28 finds when it first touches [request.files] and
    [request.form]: werkzeug parses the body there, inside the [try], and
    either hands over the two multidicts or raises (a body over one of its
    limits, a malformed body, a client that went away). *)
Inductive arrival :=
| Parsed (request : Request)
| Refused (x : exn).

(** [upload_image] from the unparsed request on. *)
Definition upload_view (a : arrival) : prog Response :=
  try_except
    match a with
    | Parsed request => upload_body request
    | Refused x => Raise x
    end
    (fun e => Ret (jsonify [("error", JStr (str e))] 500)).

(** One upload served alone, from its arrival to its response. *)
Definition receive (e : env) (a : arrival) (s : state) : Response * state :=
  let '(r, s') := exec e (dispatch (upload_view a)) s in (reply r, s').

(** A handler that performs no write: it opens no file, writes none and
    assigns no key of [latest_image]. *)
Fixpoint reads {R} (p : prog R) : Prop :=
  match p with
  | Ret _ | Raise _ => True
  | Now k => forall d, reads (k d)
  | OpenW _ _ | WriteAll _ _ _ | RegSet _ _ _ => False
  | ReadFile _ k => forall r, reads (k r)
  | RegGet _ k => forall v, reads (k v)
  end.

(** A thread that, under [e], never opens or writes the file at [p]. *)
Fixpoint avoids {R} (e : env) (p : string) (q : prog R) : Prop :=
  match q with
  | Ret _ | Raise _ => True
  | Now k => avoids e p (k (clock e))
  | OpenW path k => path <> p /\ forall r, avoids e p (k r)
  | WriteAll path _ k => path <> p /\ forall r, avoids e p (k r)
  | ReadFile _ k => forall r, avoids e p (k r)
  | RegGet _ k => forall v, avoids e p (k v)
  | RegSet _ _ k => avoids e p k
  end.

(** A request whose handler has no business with the file at [p]. *)
Definition elsewhere_than (p : string) (o : op) : Prop :=
  match o with
  | Upload e _ => blob_path (key e) <> p
  | _ => True
  end.

(** ** [base64.b64encode(s)]

    The library function the client calls before it posts a form field
    (test.py line 88): [binascii.b2a_base64] without the newline, three
    octets to four characters of the standard alphabet, the last group
    padded with [=]. *)

Module Base64Encode.

Definition alphabet : string :=
  "ABCDEFGHIJKLMNOPQRSTUVWXYZabcdefghijklmnopqrstuvwxyz0123456789+/".

(** [table_b2a_base64[v]] *)
Definition table_b2a (v : N) : ascii :=
  match String.get (N.to_nat v) alphabet with
  | Some c => c
  | None => "="%char
  end.

(** The four sextets of a group of three octets. *)
Definition sextet1 (b1 : N) : N := N.shiftr b1 2.
Definition sextet2 (b1 b2 : N) : N :=
  N.lor (N.shiftl (N.land b1 3) 4) (N.shiftr b2 4).
Definition sextet3 (b2 b3 : N) : N :=
  N.lor (N.shiftl (N.land b2 15) 2) (N.shiftr b3 6).
Definition sextet4 (b3 : N) : N := N.land b3 63.

Fixpoint b64encode (data : list byte) : string :=
  match data with
  | [] => EmptyString
  | [b1] =>
      let n1 := Byte.to_N b1 in
      String (table_b2a (sextet1 n1))
        (String (table_b2a (sextet2 n1 0)) "==")
  | [b1; b2] =>
      let n1 := Byte.to_N b1 in
      let n2 := Byte.to_N b2 in
      String (table_b2a (sextet1 n1))
        (String (table_b2a (sextet2 n1 n2))
           (String (table_b2a (sextet3 n2 0)) "="))
  | b1 :: b2 :: b3 :: rest =>
      let n1 := Byte.to_N b1 in
      let n2 := Byte.to_N b2 in
      let n3 := Byte.to_N b3 in
      String (table_b2a (sextet1 n1))
        (String (table_b2a (sextet2 n1 n2))
           (String (table_b2a (sextet3 n2 n3))
              (String (table_b2a (sextet4 n3)) (b64encode rest))))
  end.

End Base64Encode.

Import Base64Encode.

(** What the decoder's table, and the prefix test of line 49, make of the
    character of one sextet; and the bit arithmetic of one pair of octets.
    Both are decided by running through all values. *)
Definition sextet_ok (v : N) : bool :=
  match Base64.table_a2b (table_b2a v) with
  | Some v' => N.eqb v' v
  | None => false
  end
  && negb (Ascii.eqb (table_b2a v) "=")
  && negb (Ascii.eqb (table_b2a v) ",")
  && (N_of_ascii (table_b2a v) <? 128)%N.

Definition pair_ok (b1 b2 : N) : bool :=
  (N.lor (N.shiftl (sextet1 b1) 2) (N.shiftr (sextet2 b1 b2) 4) =? b1)%N
  && (N.land (sextet2 b1 b2) 15 =? N.shiftr b2 4)%N
  && (N.lor (N.shiftl (N.shiftr b1 4) 4) (N.shiftr (sextet3 b1 b2) 2) =? b1)%N
  && (N.land (sextet3 b1 b2) 3 =? N.shiftr b2 6)%N
  && (N.lor (N.shiftl (N.shiftr b1 6) 6) (sextet4 b1) =? b1)%N
  && (sextet1 b1 <? 64)%N && (sextet2 b1 b2 <? 64)%N
  && (sextet3 b1 b2 <? 64)%N && (sextet4 b1 <? 64)%N.

(** ** The test client [test/test.py]

    The methods of [ESPLiveViewClient] as functions of what surrounds the
    client: the server's state, the client's own files, the sleeps it has
    taken.  A request either does not get through (a
    [RequestException], caught by every method) or is answered by the
    handlers of [app.py]; the client's own file operations are taken to
    succeed; what the methods print is left out. *)

(** [s[:-1]] *)
Fixpoint chop (s : string) : string :=
  match s with
  | EmptyString => EmptyString
  | String a EmptyString => EmptyString
  | String a s' => String a (chop s')
  end.

(** [os.path.basename(p)]: what follows the last slash. *)
Definition basename (p : string) : string := List.last (Str.split "/" p) "".

(** [s[len(p):]] when [s.startswith(p)]. *)
Fixpoint strip_prefix (p s : string) : option string :=
  match p, s with
  | EmptyString, _ => Some s
  | String a p', String b s' =>
      if Ascii.eqb b a then strip_prefix p' s' else None
  | String _ _, EmptyString => None
  end.

Inductive method := GET | POST.

(** The characters a URL carries unquoted: letters, digits, [-._~]. *)
Definition unreserved (c : ascii) : bool :=
  let n := N_of_ascii c in
  ((65 <=? n) && (n <=? 90) || (97 <=? n) && (n <=? 122)
   || (48 <=? n) && (n <=? 57)
   || (n =? 45) || (n =? 46) || (n =? 95) || (n =? 126))%N.

Fixpoint all_unreserved (s : string) : bool :=
  match s with
  | EmptyString => true
  | String c s' => unreserved c && all_unreserved s'
  end.

(** A file name that goes into a URL path on the client and comes out of
    Flask's [<filename>] converter on the server as it is: not empty, made
    of unreserved characters, and not a dot segment (which the client
    would resolve before sending). *)
Definition segment (name : string) : bool :=
  negb (String.eqb name "") && all_unreserved name
  && negb (String.eqb name ".") && negb (String.eqb name "..").

(** A request without a body, as [requests.get] sends. *)
Definition no_body : Request := {| files := []; form := [] |}.

(** [dict.get(k)] on a parsed JSON object. *)
Fixpoint dict_get (k : string) (d : list (string * jval)) : option jval :=
  match d with
  | [] => None
  | (k', v) :: d' => if String.eqb k' k then Some v else dict_get k d'
  end.

(** [f"{v}"] for what [dict.get] returns. *)
Definition format_json (v : option jval) : string :=
  match v with
  | Some (JStr s) => s
  | Some JNull | None => "None"
  end.

(** [bool(d)] for what the upload methods return: [None] or a dict. *)
Definition truthy_dict (d : option (list (string * jval))) : bool :=
  match d with
  | None | Some [] => false
  | Some (_ :: _) => true
  end.

(** A length of time in seconds, as [time.sleep] takes it: a Python
    [int] or (finite) [float], read as the rational number it is. *)
Abbreviation seconds := QArith_base.Q.

(** [t > 0] *)
Definition above_zero (t : seconds) : bool :=
  negb (QArith_base.Qle_bool t (QArith_base.inject_Z 0)).

(** What is outside the client process: the server, the client's own
    files, and the naps [time.sleep] has taken. *)
Record world := {
  server : state;
  local : gmap string (list byte);
  naps : list seconds
}.

Definition with_server (s : state) (w : world) : world :=
  {| server := s; local := local w; naps := naps w |}.

Definition with_local (l : gmap string (list byte)) (w : world) : world :=
  {| server := server w; local := l; naps := naps w |}.

Definition nap (t : seconds) (w : world) : world :=
  {| server := server w; local := local w; naps := naps w ++ [t] |}.

Section Network.

(** The server answers at [origin] (scheme, host and port); whatever
    else a URL may name, and the methods and paths [app.py] has no view
    for, answer as [elsewhere] says, [None] being a [RequestException]. *)
Variable origin : string.
Variable elsewhere : method -> string -> option Response.

(** The octets of a response that is not an image: the serialisation
    [jsonify] chose, the page Flask rendered. *)
Variable render : body -> list byte.

(** What [Image.open(BytesIO(content))] and [img.show()] leave on the
    client's disk (test.py lines 153 to 155): before it starts a viewer
    Pillow saves the image to a temporary file of a name
    [tempfile.mkstemp] picks.  No file when Pillow cannot read the bytes,
    finds no viewer or raises before it saves (line 157 catches every
    exception). *)
Variable shown : list byte -> list (string * list byte).

(** One call of [requests.get] or [requests.post].  [link] is [None] when
    the connection fails, else the server's clock and disk behaviour while
    it serves the request. *)
Definition http (m : method) (url : string) (body : Request)
    (link : option env) (s : state) : option Response * state :=
  match link with
  | None => (None, s)
  | Some e =>
      match strip_prefix origin url, m with
      | Some path, POST =>
          if String.eqb path "/upload"
          then let '(r, s') := serve (Upload e body) s in (Some r, s')
          else (elsewhere m url, s)
      | Some path, GET =>
          if String.eqb path "/latest"
          then let '(r, s') := serve Latest s in (Some r, s')
          else
            match strip_prefix "/images/" path with
            | Some name =>
                if segment name
                then let '(r, s') := serve (Image name) s in (Some r, s')
                else (elsewhere m url, s)
            | None => (elsewhere m url, s)
            end
      | None, _ => (elsewhere m url, s)
      end
  end.

(** [response.json()]; [None] when the body is not JSON and it raises. *)
Definition json (r : Response) : option (list (string * jval)) :=
  match r_body r with
  | Json fields => Some fields
  | _ => None
  end.

(** [response.content] *)
Definition content (r : Response) : list byte :=
  match r_body r with
  | Raw data => data
  | b => render b
  end.

Record ESPLiveViewClient := {
  server_url : string;
  upload_url : string;
  latest_url : string;
  images_url : string
}.

(** [__init__] *)
Definition init (url : string) : ESPLiveViewClient :=
  let url := if Str.endswith_char "/" url then chop url else url in
  {| server_url := url;
     upload_url := url +:+ "/upload";
     latest_url := url +:+ "/latest";
     images_url := url +:+ "/images" |}.

(** The tail shared by both upload methods: post, then read the answer. *)
Definition post_image (self : ESPLiveViewClient) (request : Request)
    (link : option env) (w : world)
    : option (list (string * jval)) * world :=
  let '(response, s') := http POST (upload_url self) request link (server w) in
  (match response with
   | Some r => if Nat.eqb (r_status r) 200 then json r else None
   | None => None
   end,
   with_server s' w).

Definition upload_image_binary (self : ESPLiveViewClient) (image_path : string)
    (link : option env) (w : world)
    : option (list (string * jval)) * world :=
  match local w !! image_path with
  | None => (None, w)
  | Some data => post_image self (multipart (basename image_path) data) link w
  end.

Definition upload_image_base64 (self : ESPLiveViewClient) (image_path : string)
    (link : option env) (w : world)
    : option (list (string * jval)) * world :=
  match local w !! image_path with
  | None => (None, w)
  | Some image_data =>
      let base64_data := b64encode image_data in
      post_image self (field_only base64_data) link w
  end.

Definition get_latest_image_info (self : ESPLiveViewClient)
    (link : option env) (w : world)
    : option (list (string * jval)) * world :=
  let '(response, s') := http GET (latest_url self) no_body link (server w) in
  (match response with
   | Some r => if Nat.eqb (r_status r) 200 then json r else None
   | None => None
   end,
   with_server s' w).

(** [f.write(data)] on a file opened with [open(path, 'wb')]. *)
Definition put (file : string * list byte) (l : gmap string (list byte))
    : gmap string (list byte) :=
  <[file.1 := file.2]> l.

(** [download_and_show_image]: [link1] serves the query (when no URL is
    given), [link2] the download; [now] is the client's clock. *)
Definition download_and_show_image (self : ESPLiveViewClient)
    (image_url : option string) (link1 link2 : option env) (now : datetime)
    (w : world) : bool * world :=
  let '(image_url, w) :=
    match image_url with
    | Some url => (Some url, w)
    | None =>
        let '(info, w') := get_latest_image_info self link1 w in
        match info with
        | None => (None, w')
        | Some info =>
            (Some (server_url self +:+ format_json (dict_get "url" info)), w')
        end
    end in
  match image_url with
  | None => (false, w)
  | Some image_url =>
      let '(response, s') :=
        http GET image_url no_body link2 (server w) in
      let w := with_server s' w in
      match response with
      | Some r =>
          if Nat.eqb (r_status r) 200 then
            let timestamp := strftime now in
            let filename := "downloaded_" +:+ timestamp +:+ ".jpg" in
            let w := with_local (put (filename, content r) (local w)) w in
            (true,
             with_local
               (fold_left (fun l file => put file l) (shown (content r))
                  (local w)) w)
          else (false, w)
      | None => (false, w)
      end
  end.

(** [simulate_esp32s3]: the loop over [range(count)], [i] counting up
    while [todo] turns remain.  [links i] is the link of the [i]-th
    upload.  A negative [interval] makes [time.sleep] raise, outside any
    [try]. *)
Fixpoint simulate_loop (self : ESPLiveViewClient) (image_path : string)
    (interval count : Z) (links : nat -> option env)
    (i todo : nat) (w : world) : outcome bool * world :=
  match todo with
  | 0 => (Returned true, w)
  | S todo' =>
      let '(result, w) := upload_image_binary self image_path (links i) w in
      if truthy_dict result then
        if (Z.of_nat i <? count - 1)%Z then
          if (interval <? 0)%Z
          then (Raised (Exc "sleep length must be non-negative"), w)
          else simulate_loop self image_path interval count links (S i) todo'
                 (nap (QArith_base.inject_Z interval) w)
        else simulate_loop self image_path interval count links (S i) todo' w
      else (Returned false, w)
  end.

Definition simulate_esp32s3 (self : ESPLiveViewClient) (image_path : string)
    (interval count : Z) (links : nat -> option env) (w : world)
    : outcome bool * world :=
  match local w !! image_path with
  | None => (Returned false, w)
  | Some _ =>
      simulate_loop self image_path interval count links 0 (Z.to_nat count) w
  end.

(** ** The video client [test/test_client_video.py] *)

Record VideoFrameUploader := {
  v_server_url : string;
  v_upload_url : string;
  running : bool;
  frames_total : nat;
  frames_uploaded : nat;
  upload_errors : nat
}.

(** [__init__] *)
Definition v_init (url : string) : VideoFrameUploader :=
  let url := if Str.endswith_char "/" url then chop url else url in
  {| v_server_url := url;
     v_upload_url := url +:+ "/upload";
     running := false;
     frames_total := 0;
     frames_uploaded := 0;
     upload_errors := 0 |}.

Definition count_upload (ok : bool) (self : VideoFrameUploader)
    : VideoFrameUploader :=
  {| v_server_url := v_server_url self;
     v_upload_url := v_upload_url self;
     running := running self;
     frames_total := frames_total self;
     frames_uploaded := (if ok then S (frames_uploaded self)
                         else frames_uploaded self);
     upload_errors := (if ok then upload_errors self
                       else S (upload_errors self)) |}.

(** [upload_frame].  [frame] is the JPEG [cv2.imwrite] writes for the
    frame, [temp_path] the file [tempfile.mkstemp] creates. *)
Definition upload_frame (self : VideoFrameUploader) (frame : list byte)
    (temp_path : string) (link : option env) (w : world)
    : bool * VideoFrameUploader * world :=
  let w := with_local (<[temp_path := []]> (local w)) w in
  let w := with_local (<[temp_path := frame]> (local w)) w in
  let '(response, s') :=
    http POST (v_upload_url self)
      (multipart "frame.jpg" (default [] (local w !! temp_path)))
      link (server w) in
  let w := with_server s' w in
  let ok :=
    match response with
    | Some r => Nat.eqb (r_status r) 200
    | None => false
    end in
  (ok, count_upload ok self, with_local (delete temp_path (local w)) w).

(** [max(0, x)] of line 161. *)
Definition max0 (x : seconds) : seconds :=
  if above_zero x then x else QArith_base.inject_Z 0.

(** [process_video] from line 119 on.  The frame schedule of lines 109 to
    117 is float arithmetic and is taken as given, by its frame numbers;
    [video n] is what [cap.read()] returns at frame [n], [None] when it
    fails; [waits i] is the float
    [(next_timestamp - timestamp) - (elapsed - timestamp)] of line 161 at
    turn [i], which depends on the wall clock; [total] is
    [len(frames_to_extract)]. *)
Fixpoint upload_frames (video : N -> option (list byte))
    (temp : nat -> string) (links : nat -> option env)
    (realtime : bool) (waits : nat -> seconds) (total : nat)
    (frames_to_extract : list N) (i : nat)
    (self : VideoFrameUploader) (w : world) : VideoFrameUploader * world :=
  match frames_to_extract with
  | [] => (self, w)
  | frame_number :: rest =>
      if negb (running self) then (self, w)
      else
        match video frame_number with
        | None =>
            upload_frames video temp links realtime waits total rest (S i)
              {| v_server_url := v_server_url self;
                 v_upload_url := v_upload_url self;
                 running := running self;
                 frames_total := frames_total self;
                 frames_uploaded := frames_uploaded self;
                 upload_errors := S (upload_errors self) |} w
        | Some frame =>
            let '(_, self, w) := upload_frame self frame (temp i) (links i) w in
            let w :=
              if realtime && Nat.ltb i (total - 1) then
                let wait_time := max0 (waits i) in
                if above_zero wait_time then nap wait_time w else w
              else w in
            upload_frames video temp links realtime waits total rest (S i)
              self w
        end
  end.

Definition process_video (self : VideoFrameUploader)
    (video : N -> option (list byte)) (temp : nat -> string)
    (links : nat -> option env) (realtime : bool) (waits : nat -> seconds)
    (frames_to_extract : list N) (w : world)
    : bool * VideoFrameUploader * world :=
  let self :=
    {| v_server_url := v_server_url self;
       v_upload_url := v_upload_url self;
       running := true;
       frames_total := length frames_to_extract;
       frames_uploaded := 0;
       upload_errors := 0 |} in
  let '(self, w) :=
    upload_frames video temp links realtime waits (length frames_to_extract)
      frames_to_extract 0 self w in
  (Nat.ltb 0 (frames_uploaded self), self, w).

(** [stop] *)
Definition stop (self : VideoFrameUploader) : VideoFrameUploader :=
  {| v_server_url := v_server_url self;
     v_upload_url := v_upload_url self;
     running := false;
     frames_total := frames_total self;
     frames_uploaded := frames_uploaded self;
     upload_errors := upload_errors self |}.

End Network.

(** ** Vocabulary of the statements about the clients *)

(** The first [n] requests all reach the server, and the server's file
    operations succeed while it serves them. *)
Definition smooth (links : nat -> option env) (n : nat) : Prop :=
  forall i, i < n -> exists e, links i = Some e /\ fault e = NoFault.

(** The uploads [todo] turns of a loop send, from turn [i] on. *)
Definition turns (request : Request) (links : nat -> option env)
    (i todo : nat) : list op :=
  map (fun j => Upload (default quiet (links j)) request) (seq i todo).

(** The uploads the frame loop sends for the frames it can read, from turn
    [i] on. *)
Fixpoint frame_turns (video : N -> option (list byte))
    (links : nat -> option env) (frames : list N) (i : nat) : list op :=
  match frames with
  | [] => []
  | n :: rest =>
      match video n with
      | Some frame =>
          Upload (default quiet (links i)) (multipart "frame.jpg" frame)
          :: frame_turns video links rest (S i)
      | None => frame_turns video links rest (S i)
      end
  end.

(** How many of the frames [cap.read()] delivers. *)
Fixpoint readable (video : N -> option (list byte)) (frames : list N) : nat :=
  match frames with
  | [] => 0
  | n :: rest =>
      match video n with
      | Some _ => S (readable video rest)
      | None => readable video rest
      end
  end.

(** ** Sample clients *)

Definition localhost : string := "http://localhost:5002".

(** Nothing but the server answers. *)
Definition nowhere (m : method) (url : string) : option Response := None.

(** A serialisation of the bodies that are not images; none of the
    statements depends on it. *)
Definition blank (b : body) : list byte := [].

(** A viewer for which Pillow saves what it shows as one temporary file. *)
Definition preview (content : list byte) : list (string * list byte) :=
  [("/tmp/tmpk3x9.PNG", content)].

(** A client machine with one picture and an empty server. *)
Definition desk : world :=
  {| server := boot ∅; local := {[ "cat.jpg" := abc ]}; naps := [] |}.

(** A connection that is always there, the server's clock at noon. *)
Definition steady (i : nat) : option env := Some (calm noon).

(** A connection that breaks at the third request. *)
Definition breaks_at_2 (i : nat) : option env :=
  if Nat.eqb i 2 then None else Some (calm noon).

(** A video of which frame 1 cannot be read. *)
Definition clip (n : N) : option (list byte) :=
  if (n =? 1)%N then None else Some abc.

Definition tmp (i : nat) : string := "/tmp/tmp" +:+ pretty i +:+ ".jpg".

(** The client is half a second behind schedule at turn 0 and a quarter of
    a second ahead of it afterwards. *)
Definition lag (i : nat) : seconds :=
  match i with
  | 0 => QArith_base.Qmake (-1) 2
  | _ => QArith_base.Qmake 1 4
  end.

(** ** The semantics of sequencing and of [try] *)

Section Semantics.

Context {A B : Type} (e : env).

Lemma exec_bind (p : prog A) (f : A -> prog B) (s : state) :
  exec e (bind p f) s =
  match exec e p s with
  | (Returned r, s') => exec e (f r) s'
  | (Raised x, s') => (Raised x, s')
  end.
Proof.
  revert s.
  induction p as [r|x|k IH|path k IH|path data k IH|path k IH|fl k IH|fl v k IH];
    intros s; simpl; try done; by destruct (fault e).
Qed.

Lemma exec_try (p : prog A) (h : exn -> prog A) (s : state) :
  exec e (try_except p h) s =
  match exec e p s with
  | (Returned r, s') => (Returned r, s')
  | (Raised x, s') => exec e (h x) s'
  end.
Proof.
  revert s.
  induction p as [r|x|k IH|path k IH|path data k IH|path k IH|fl k IH|fl v k IH];
    intros s; simpl; try done; by destruct (fault e).
Qed.

(** Running to completion is taking the atomic actions one by one. *)
Lemma exec_step (p p' : prog A) (s s' : state) (ev : event) :
  step e p s = Some (ev, p', s') -> exec e p s = exec e p' s'.
Proof.
  destruct p; simpl; intros H; try discriminate; try (by inversion H);
    destruct (fault e); by inversion H.
Qed.

End Semantics.

Lemma overlay_truncate path data (d : gmap string (list byte)) :
  overlay path data (truncate path d) = <[path := data]> d.
Proof.
  unfold overlay, truncate. rewrite lookup_insert_eq. simpl.
  rewrite drop_nil, app_nil_r. apply insert_insert_eq.
Qed.

(** ** Storage keys are plain file names *)

Module StrFacts.

Lemma contains_app c (a b : string) :
  Str.contains c (a +:+ b) = Str.contains c a || Str.contains c b.
Proof.
  induction a as [|x a IH]; simpl; [done|]. by destruct (Ascii.eqb x c).
Qed.

Lemma startswith_slash s :
  Str.contains "/" s = false -> Str.startswith "/" s = false.
Proof.
  destruct s as [|a s]; simpl; [done|]. by destruct (Ascii.eqb a "/").
Qed.

Lemma startswith_dotdot s :
  Str.contains "/" s = false -> Str.startswith "../" s = false.
Proof.
  destruct s as [|a [|b [|c s]]]; simpl; try done;
    try (by rewrite ?andb_false_r).
  destruct (Ascii.eqb a "/"); [done|]. destruct (Ascii.eqb b "/"); [done|].
  destruct (Ascii.eqb c "/"); [done|].
  by rewrite !andb_false_r.
Qed.

Lemma split_no_sep c s : Str.contains c s = false -> Str.split c s = [s].
Proof.
  induction s as [|a s IH]; simpl; [done|].
  destruct (Ascii.eqb a c); [done|]. intros H. by rewrite IH.
Qed.

End StrFacts.

Lemma digit_cases n :
  digit n ∈ ["0"; "1"; "2"; "3"; "4"; "5"; "6"; "7"; "8"; "9"]%char.
Proof.
  unfold digit.
  assert (H : (n mod 10 < 10)%N) by (apply N.mod_upper_bound; lia).
  destruct (n mod 10)%N as [|q]; [set_solver|].
  do 4 (destruct q as [q|q|]; try lia; try (simpl; set_solver)).
Qed.

Lemma digit_not_slash n : Ascii.eqb (digit n) "/" = false.
Proof.
  pose proof (digit_cases n) as H.
  repeat (apply elem_of_cons in H as [->|H]; [done|]).
  by apply elem_of_nil in H.
Qed.

Lemma strftime_no_slash d : Str.contains "/" (strftime d) = false.
Proof.
  unfold strftime, pad4, pad2. simpl.
  by rewrite !digit_not_slash.
Qed.

Lemma image_name_no_slash t :
  Str.contains "/" t = false -> Str.contains "/" (image_name t) = false.
Proof.
  intros H. unfold image_name. by rewrite !StrFacts.contains_app, H.
Qed.

(** Within the ranges of a [datetime], the timestamp determines the
    second: distinct seconds never share a storage key. *)
Lemma digit_inj a b : digit a = digit b -> (a mod 10 = b mod 10)%N.
Proof.
  unfold digit. intros H.
  assert (Ha : (a mod 10 < 10)%N) by (apply N.mod_upper_bound; lia).
  assert (Hb : (b mod 10 < 10)%N) by (apply N.mod_upper_bound; lia).
  apply (f_equal N_of_ascii) in H.
  rewrite !N_ascii_embedding in H by lia. lia.
Qed.

Lemma pad2_inj a b : (a < 100)%N -> (b < 100)%N -> pad2 a = pad2 b -> a = b.
Proof.
  unfold pad2. intros Ha Hb [= H1%digit_inj H2%digit_inj].
  rewrite (N.div_mod a 10), (N.div_mod b 10) by lia.
  rewrite (N.mod_small (a / 10) 10) in H1.
  2:{ apply N.Div0.div_lt_upper_bound; lia. }
  rewrite (N.mod_small (b / 10) 10) in H1.
  2:{ apply N.Div0.div_lt_upper_bound; lia. }
  lia.
Qed.

Lemma decimal4 a :
  (a = 1000 * (a / 1000) + 100 * ((a / 100) mod 10)
       + 10 * ((a / 10) mod 10) + a mod 10)%N.
Proof.
  replace (a / 1000)%N with (a / 10 / 10 / 10)%N
    by (by rewrite !N.Div0.div_div).
  replace (a / 100)%N with (a / 10 / 10)%N by (by rewrite !N.Div0.div_div).
  pose proof (N.div_mod a 10). pose proof (N.div_mod (a / 10) 10).
  pose proof (N.div_mod (a / 10 / 10) 10). lia.
Qed.

Lemma pad4_inj a b :
  (a < 10000)%N -> (b < 10000)%N -> pad4 a = pad4 b -> a = b.
Proof.
  unfold pad4, pad2.
  intros Ha Hb [= H1%digit_inj H2%digit_inj H3%digit_inj H4%digit_inj].
  rewrite (N.mod_small (a / 1000) 10) in H1
    by (apply N.Div0.div_lt_upper_bound; lia).
  rewrite (N.mod_small (b / 1000) 10) in H1
    by (apply N.Div0.div_lt_upper_bound; lia).
  rewrite (decimal4 a), (decimal4 b). lia.
Qed.

Lemma strftime_inj d1 d2 :
  valid_datetime d1 -> valid_datetime d2 ->
  strftime d1 = strftime d2 -> same_second d1 d2.
Proof.
  intros (Hy1 & Hm1 & Hd1 & Hh1 & Hmi1 & Hs1 & _)
         (Hy2 & Hm2 & Hd2 & Hh2 & Hmi2 & Hs2 & _) H.
  unfold strftime, pad4, pad2 in H. cbn [String.append] in H.
  injection H as Y1 Y2 Y3 Y4 M1 M2 D1 D2 H1 H2 I1 I2 S1 S2.
  unfold same_second. split_and!.
  - apply pad4_inj; [lia|lia|]. unfold pad4, pad2. by rewrite Y1, Y2, Y3, Y4.
  - apply pad2_inj; [lia|lia|]. unfold pad2. by rewrite M1, M2.
  - apply pad2_inj; [lia|lia|]. unfold pad2. by rewrite D1, D2.
  - apply pad2_inj; [lia|lia|]. unfold pad2. by rewrite H1, H2.
  - apply pad2_inj; [lia|lia|]. unfold pad2. by rewrite I1, I2.
  - apply pad2_inj; [lia|lia|]. unfold pad2. by rewrite S1, S2.
Qed.

Lemma normpath_no_slash s :
  Str.contains "/" s = false -> s <> "" -> Posixpath.normpath s = s.
Proof.
  intros H Hne. unfold Posixpath.normpath.
  apply String.eqb_neq in Hne. rewrite Hne.
  unfold Posixpath.initial_slashes. rewrite (StrFacts.startswith_slash _ H).
  rewrite (StrFacts.split_no_sep _ _ H).
  cbn [fold_left Posixpath.slashes].
  unfold Posixpath.push_comp, Posixpath.is_dot. rewrite Hne.
  destruct (String.eqb s ".") eqn:Hd.
  - apply String.eqb_eq in Hd. by subst.
  - cbn. rewrite orb_true_r. cbn. change ("" +:+ s) with s. by rewrite Hne.
Qed.

(** A name without a slash, other than [..], is looked up as it is. *)
Lemma safe_join_no_slash s :
  Str.contains "/" s = false -> s <> ".." ->
  safe_join UPLOAD_FOLDER s = Some (blob_path s).
Proof.
  intros H Hdd. unfold safe_join, blob_path.
  change (String.eqb UPLOAD_FOLDER "") with false. cbv zeta iota.
  destruct (String.eqb s "") eqn:He.
  - apply String.eqb_eq in He. by subst.
  - apply String.eqb_neq in He. rewrite (normpath_no_slash _ H He).
    rewrite (StrFacts.startswith_slash _ H), (StrFacts.startswith_dotdot _ H).
    apply String.eqb_neq in Hdd. by rewrite Hdd.
Qed.

Lemma safe_join_key d :
  safe_join UPLOAD_FOLDER (image_name (strftime d))
  = Some (blob_path (image_name (strftime d))).
Proof.
  apply safe_join_no_slash; [|done].
  apply image_name_no_slash, strftime_no_slash.
Qed.

(** ** The upload view, case by case *)

Lemma split_second c s :
  Str.contains c s = true -> is_Some (Str.split c s !! 1).
Proof.
  induction s as [|a s IH]; simpl; [done|].
  destruct (Ascii.eqb a c).
  - intros _. destruct s as [|b s]; simpl; [eauto|].
    destruct (Ascii.eqb b c); [eauto|]. destruct (Str.split c s); eauto.
  - intros H. destruct (IH H) as [x Hx].
    destruct (Str.split c s) as [|h t]; [done|]. simpl in *. eauto.
Qed.

Section Upload.

Variables (e : env) (request : Request) (s : state).

Lemma upload_none :
  md_in "image" (files request) = false ->
  md_in "image" (form request) = false ->
  exec e (upload_image request) s
  = (Returned (failure "No image data found" 400), s).
Proof.
  intros H1 H2. unfold upload_image, upload_body. by rewrite H1, H2.
Qed.

Lemma upload_unnamed file :
  md_get "image" (files request) = Some file ->
  fs_filename file = "" ->
  exec e (upload_image request) s
  = (Returned (failure "No image selected" 400), s).
Proof.
  intros H1 H2.
  unfold upload_image, upload_body, store_image, md_in, getitem.
  rewrite H1. simpl. by rewrite H2.
Qed.

Lemma upload_multipart file :
  md_get "image" (files request) = Some file ->
  fs_filename file <> "" ->
  exec e (upload_image request) s =
  match fault e with
  | NoFault =>
      (Returned (success (key e) (stamp e)),
       {| disk := <[blob_path (key e) := fs_stream file]> (disk s);
          latest_image :=
            {| filename := Some (key e); timestamp := Some (stamp e) |} |})
  | OpenFails msg => (Returned (failure msg 500), s)
  | WriteFails msg n =>
      (Returned (failure msg 500),
       set_disk (<[blob_path (key e) := take n (fs_stream file)]> (disk s)) s)
  end.
Proof.
  intros Hf Hn.
  unfold upload_image, upload_body, store_image, md_in, getitem.
  rewrite Hf. simpl.
  apply String.eqb_neq in Hn. rewrite Hn. simpl.
  destruct (fault e); simpl; rewrite ?overlay_truncate; done.
Qed.

Lemma upload_form v :
  md_get "image" (files request) = None ->
  md_get "image" (form request) = Some v ->
  exec e (upload_image request) s =
  match fault e with
  | OpenFails msg => (Returned (failure msg 500), s)
  | fl =>
      match Base64.b64decode (form_payload v) with
      | Base64.Error msg =>
          (Returned (failure msg 500),
           set_disk (<[blob_path (key e) := []]> (disk s)) s)
      | Base64.Ok data =>
          match fl with
          | WriteFails msg n =>
              (Returned (failure msg 500),
               set_disk (<[blob_path (key e) := take n data]> (disk s)) s)
          | _ =>
              (Returned (success (key e) (stamp e)),
               {| disk := <[blob_path (key e) := data]> (disk s);
                  latest_image :=
                    {| filename := Some (key e);
                       timestamp := Some (stamp e) |} |})
          end
      end
  end.
Proof.
  intros Hf Hv.
  unfold upload_image, upload_body, store_image, md_in, getitem, form_payload.
  rewrite Hf, Hv. simpl.
  destruct (Str.contains "," v) eqn:Hc.
  - destruct (split_second _ _ Hc) as [x Hx]. unfold index. rewrite Hx. simpl.
    unfold b64decode.
    destruct (fault e) eqn:Hfl; simpl; destruct (Base64.b64decode x); simpl;
      rewrite ?Hfl, ?overlay_truncate; done.
  - simpl. unfold b64decode.
    destruct (fault e) eqn:Hfl; simpl; destruct (Base64.b64decode v); simpl;
      rewrite ?Hfl, ?overlay_truncate; done.
Qed.

Lemma upload_outcomes :
  exists resp s',
    exec e (upload_image request) s = (Returned resp, s') /\
    upload_outcome e request s resp s'.
Proof.
  destruct (md_get "image" (files request)) as [file|] eqn:Hf.
  - destruct (decide (fs_filename file = "")) as [Hn|Hn].
    + rewrite (upload_unnamed _ Hf Hn). eauto using upload_outcome.
    + rewrite (upload_multipart _ Hf Hn).
      destruct (fault e); eauto 6 using upload_outcome, carries.
  - destruct (md_get "image" (form request)) as [v|] eqn:Hv.
    + rewrite (upload_form _ Hf Hv).
      destruct (fault e); destruct (Base64.b64decode (form_payload v)) eqn:Hd;
        eauto 6 using upload_outcome, carries.
    + rewrite upload_none; [eauto using upload_outcome| |];
        unfold md_in; by rewrite ?Hf, ?Hv.
Qed.

End Upload.

(** ** The three routes, served one request at a time *)

Lemma serve_upload e request s resp s' :
  exec e (upload_image request) s = (Returned resp, s') ->
  serve (Upload e request) s = (resp, s').
Proof.
  intros H. unfold serve, op_view, op_env, dispatch.
  by rewrite exec_try, H.
Qed.

Lemma serve_upload_outcome e request s :
  exists resp s',
    serve (Upload e request) s = (resp, s') /\
    upload_outcome e request s resp s'.
Proof.
  destruct (upload_outcomes e request s) as (resp & s' & H & Ho).
  exists resp, s'. split; [by apply serve_upload|done].
Qed.

Lemma serve_latest s :
  serve Latest s =
  (if truthy (filename (latest_image s))
   then jsonify
          [("filename", jopt (filename (latest_image s)));
           ("timestamp", jopt (timestamp (latest_image s)));
           ("url", JStr ("/images/" +:+ format (filename (latest_image s))))]
          200
   else failure "No image uploaded yet" 404,
   s).
Proof.
  unfold serve. simpl. by destruct (truthy (filename (latest_image s))).
Qed.

Lemma serve_image name s :
  serve (Image name) s =
  (match safe_join UPLOAD_FOLDER name with
   | None => page 404
   | Some path =>
       match disk s !! path with
       | None => page 404
       | Some data => {| r_body := Raw data; r_status := 200 |}
       end
   end, s).
Proof.
  unfold serve, op_view, op_env, dispatch, get_image, send_from_directory.
  destruct (safe_join UPLOAD_FOLDER name) as [path|]; simpl; [|done].
  by destruct (disk s !! path).
Qed.

Lemma serve_all_snd_cons o ops s :
  (serve_all (o :: ops) s).2 = (serve_all ops (serve o s).2).2.
Proof.
  simpl. destruct (serve o s) as [r s1]. simpl.
  by destruct (serve_all ops s1).
Qed.

(** ** The register invariant, one request at a time *)

Lemma consistent_cases s :
  consistent s ->
  latest_image s = {| filename := None; timestamp := None |} \/
  exists d, latest_image s =
              {| filename := Some (image_name (strftime d));
                 timestamp := Some (strftime d) |} /\
            is_Some (disk s !! blob_path (image_name (strftime d))).
Proof.
  unfold consistent. destruct (latest_image s) as [[f|] [t|]]; simpl; try done.
  - intros ([d ->] & -> & H). right. by exists d.
  - by left.
Qed.

Lemma consistent_boot d : consistent (boot d).
Proof. done. Qed.

Lemma consistent_serve o s : consistent s -> consistent (serve o s).2.
Proof.
  intros Hc. destruct o as [e request| |name].
  - destruct (serve_upload_outcome e request s) as (resp & s' & -> & Ho). simpl.
    destruct Ho; try done.
    + unfold consistent in *. simpl.
      destruct (filename (latest_image s)) as [f0|], (timestamp (latest_image s));
        try done.
      destruct Hc as (Hd & Hf & Hs). split_and!; try done.
      destruct (decide (blob_path (key e) = blob_path f0))
        as [->|Hne].
      * rewrite lookup_insert_eq; eauto.
      * by rewrite lookup_insert_ne.
    + unfold consistent. simpl. split_and!; eauto.
      rewrite lookup_insert_eq; eauto.
  - by rewrite serve_latest.
  - by rewrite serve_image.
Qed.

Lemma consistent_serve_all ops s :
  consistent s -> consistent (serve_all ops s).2.
Proof.
  revert s. induction ops as [|o ops IH]; intros s Hc; [done|].
  rewrite serve_all_snd_cons. by apply IH, consistent_serve.
Qed.

(** ** The register invariant under interleaving *)

Lemma safe_mono {R} (p : prog R) t t' :
  (forall ev, ev ∈ t -> ev ∈ t') -> safe t p -> safe t' p.
Proof.
  revert t t'.
  induction p as [r|x|k IH|path k IH|path data k IH|path k IH|fl k IH|fl v k IH];
    intros t t' Hsub; simpl; try done; eauto.
  - intros [H1 H2]. split; [|eauto].
    eapply IH; [|done].
    intros ev [?|?]%elem_of_app; apply elem_of_app; eauto.
  - intros [H1 H2]. split; eauto.
Qed.

Lemma safe_try {R} (p : prog R) h t :
  safe t p -> (forall t' x, safe t' (h x)) -> safe t (try_except p h).
Proof.
  revert t.
  induction p as [r|x|k IH|path k IH|path data k IH|path k IH|fl k IH|fl v k IH];
    intros t; simpl; try done; eauto.
  - intros [H1 H2] Hh. split; eauto.
  - intros [H1 H2] Hh. split; eauto.
Qed.

Lemma safe_upload_body request : safe [] (upload_body request).
Proof.
  unfold upload_body, store_image, getitem, index, b64decode.
  repeat (case_match; simpl; try done).
  all: repeat (intros; simpl;
               try match goal with
                   | |- context [io_result ?r] => is_var r; destruct r
                   end;
               try case_match; try split); try done.
  all: try set_solver.
Qed.

Lemma safe_view o : safe [] (op_view o).
Proof.
  unfold op_view, dispatch. apply safe_try; [|done].
  destruct o as [e request| |name].
  - apply safe_try; [apply safe_upload_body|done].
  - unfold get_latest_image. simpl. intros v. by destruct (truthy v).
  - unfold get_image, send_from_directory. case_match; simpl; [|done].
    intros r. by destruct r.
Qed.

Lemma safe_step {R} e (p p' : prog R) s s' ev t :
  step e p s = Some (ev, p', s') -> safe t p -> safe (t ++ [ev]) p'.
Proof.
  assert (Hm : forall q : prog R, safe t q -> safe (t ++ [ev]) q).
  { intros q. apply safe_mono. intros x Hx. apply elem_of_app. by left. }
  destruct p; simpl; intros H Hs; try discriminate.
  - inversion H; subst. by apply Hm.
  - destruct (fault e); inversion H; subst; by apply Hm.
  - destruct Hs as [H1 H2].
    destruct (fault e); inversion H; subst; try done; by apply Hm.
  - inversion H; subst. by apply Hm.
  - inversion H; subst. by apply Hm.
  - inversion H; subst. apply Hm, Hs.
Qed.

Lemma step_filename {R} e (p p' : prog R) s s' ev t f :
  step e p s = Some (ev, p', s') -> safe t p ->
  filename (latest_image s') = Some f ->
  filename (latest_image s) = Some f \/ EvWrite (blob_path f) ∈ t.
Proof.
  destruct p; simpl; intros H Hs Hf; try discriminate.
  - inversion H; subst. by left.
  - destruct (fault e); inversion H; subst; by left.
  - destruct (fault e); inversion H; subst; by left.
  - inversion H; subst. by left.
  - inversion H; subst. by left.
  - inversion H; subst. destruct Hs as [Hw _]. destruct f0; simpl in Hf.
    + right. inversion Hf; subst. by apply Hw.
    + by left.
Qed.

Lemma step_disk {R} e (p p' : prog R) s s' ev path :
  step e p s = Some (ev, p', s') ->
  is_Some (disk s !! path) \/ ev = EvWrite path ->
  is_Some (disk s' !! path).
Proof.
  assert (Hi : forall q x (d : gmap string (list byte)),
             is_Some (d !! path) \/ q = path -> is_Some (<[q := x]> d !! path)).
  { intros q x d [H| ->]; [|rewrite lookup_insert_eq; eauto].
    destruct (decide (q = path)) as [->|Hne];
      [rewrite lookup_insert_eq; eauto|by rewrite lookup_insert_ne]. }
  destruct p; simpl; intros H Hs; try discriminate.
  - inversion H; subst. by destruct Hs.
  - destruct (fault e); inversion H; subst; simpl;
      destruct Hs as [Hs|Hs]; try done; apply Hi; eauto.
  - destruct (fault e); inversion H; subst; simpl;
      destruct Hs as [Hs|Hs]; try done; apply Hi; eauto.
    all: inversion Hs; eauto.
  - inversion H; subst. by destruct Hs.
  - inversion H; subst. by destruct Hs.
  - inversion H; subst. by destruct Hs.
Qed.

Lemma step_set_filename {R} e (p p' : prog R) s s' t f :
  step e p s = Some (EvSet Filename f, p', s') -> safe t p ->
  EvWrite (blob_path f) ∈ t.
Proof.
  destruct p; simpl; intros H Hs; try discriminate;
    try (by inversion H); try (destruct (fault e); by inversion H).
  inversion H; subst. by apply Hs.
Qed.

Lemma ordered_snoc t ev :
  ordered t ->
  (forall f, ev = EvSet Filename f -> EvWrite (blob_path f) ∈ t) ->
  ordered (t ++ [ev]).
Proof.
  intros Ho Hev j f Hj.
  destruct (decide (j < length t)) as [Hlt|Hge].
  - rewrite lookup_app_l in Hj by done.
    destruct (Ho j f Hj) as (i & Hi & Hl). exists i. split; [done|].
    rewrite lookup_app_l; [done|lia].
  - rewrite lookup_app_r in Hj by lia.
    destruct (j - length t) as [|n] eqn:Hn; [|by destruct n].
    simpl in Hj. inversion Hj; subst.
    pose proof (Hev f eq_refl) as Hin.
    apply list_elem_of_lookup in Hin as [i Hi].
    exists i. pose proof (lookup_lt_Some _ _ _ Hi).
    split; [lia|]. by rewrite lookup_app_l.
Qed.

Lemma coherent_step c i : coherent c -> coherent (sched_step c i).
Proof.
  intros [Ht Hl Hd Ho]. unfold sched_step.
  destruct (threads c !! i) as [[e p]|] eqn:Hi; [|done].
  destruct (step e p (shared c)) as [[[ev p'] s']|] eqn:Hs; [|done].
  pose proof (Ht _ _ _ Hi) as Hp.
  constructor; simpl.
  - intros j e' q Hj.
    destruct (decide (i = j)) as [->|Hne].
    + rewrite list_lookup_insert_eq in Hj by (by eapply lookup_lt_Some).
      inversion Hj; subst. by eapply safe_step.
    + rewrite list_lookup_insert_ne in Hj by done.
      eapply safe_mono; [|by eapply Ht].
      intros x Hx. apply elem_of_app. by left.
  - intros f Hf. apply elem_of_app. left.
    destruct (step_filename _ _ _ _ _ _ _ _ Hs Hp Hf); eauto.
  - intros path [Hin|Hin]%elem_of_app; eapply step_disk; eauto.
    right. by apply list_elem_of_singleton in Hin.
  - apply ordered_snoc; [done|]. intros f ->. by eapply step_set_filename.
Qed.

Lemma coherent_sched schedule c : coherent c -> coherent (sched schedule c).
Proof.
  revert c. induction schedule as [|i l IH]; intros c Hc; [done|].
  simpl. by apply IH, coherent_step.
Qed.

Lemma coherent_spawn ops d : coherent (spawn ops (boot d)).
Proof.
  constructor.
  - intros i e p Hi. apply list_lookup_fmap_Some in Hi as (o & Heq & Ho).
    injection Heq as -> ->. apply safe_view.
  - done.
  - intros path H. by apply elem_of_nil in H.
  - intros j f Hj. done.
Qed.

(** ** What [safe_join] lets through *)

Lemma split_elems c s :
  Forall (fun x => Str.contains c x = false) (Str.split c s).
Proof.
  induction s as [|a s IH]; simpl; [by constructor|].
  destruct (Ascii.eqb a c) eqn:Ha; [by constructor|].
  destruct (Str.split c s) as [|h t]; [constructor; [simpl; by rewrite Ha|done]|].
  inversion IH; subst. constructor; [|done]. simpl. by rewrite Ha.
Qed.

Lemma push_comp_ok stack comp :
  stack_ok stack -> Str.contains "/" comp = false ->
  stack_ok (Posixpath.push_comp 0 stack comp).
Proof.
  intros (normals & dd & -> & Hn & Hd) Hc. unfold Posixpath.push_comp.
  destruct (Posixpath.is_dot comp); [by exists normals, dd|].
  destruct (String.eqb comp "..") eqn:Hdd; simpl.
  - apply String.eqb_eq in Hdd. subst comp.
    destruct normals as [|x normals]; simpl.
    + exists [], (".." :: dd). split_and!; [| done | by constructor].
      destruct dd as [|y dd]; [by rewrite bool_decide_eq_true_2|].
      inversion Hd; subst. simpl.
      repeat case_bool_decide; simpl; done.
    + inversion Hn as [|? ? [Hx _] Hn']; subst.
      rewrite bool_decide_eq_false_2 by (intros [= ->]; done).
      by exists normals, dd.
  - apply String.eqb_neq in Hdd.
    exists (comp :: normals), dd. split_and!; [done| |done].
    constructor; [|done]. by split.
Qed.

Lemma fold_push_ok comps stack :
  stack_ok stack -> Forall (fun x => Str.contains "/" x = false) comps ->
  stack_ok (fold_left (Posixpath.push_comp 0) comps stack).
Proof.
  revert stack. induction comps as [|c comps IH]; intros stack Hs Hc; [done|].
  inversion Hc; subst. simpl. apply IH; [|done]. by apply push_comp_ok.
Qed.

Lemma join_dotdot rest :
  String.eqb (Str.join "/" (".." :: rest)) ".."
  || Str.startswith "../" (Str.join "/" (".." :: rest)) = true.
Proof. by destruct rest. Qed.

Lemma forall_plain_rev l : Forall plain l -> Forall plain (rev l).
Proof.
  intros H. apply Forall_forall. intros x Hx. rewrite Forall_forall in H.
  apply H. by apply list_elem_of_In, in_rev, list_elem_of_In.
Qed.

(** Whatever name [safe_join] accepts, the path it hands to the file
    system stays below the upload folder. *)
Lemma safe_join_inside name path :
  safe_join UPLOAD_FOLDER name = Some path -> inside_root path.
Proof.
  unfold safe_join.
  change (String.eqb UPLOAD_FOLDER "") with false. cbv zeta iota.
  destruct (String.eqb name "") eqn:He.
  { apply String.eqb_eq in He. subst name. simpl. intros [= <-].
    exists [""]. split; [done|]. constructor; [by split|constructor]. }
  unfold Posixpath.normpath. rewrite He.
  destruct (Posixpath.initial_slashes name) as [|n] eqn:Hn.
  2:{ change (Posixpath.slashes (S n)) with (String "/" (Posixpath.slashes n)).
      by simpl. }
  change (Posixpath.slashes 0 +:+ ?x) with x.
  destruct (fold_push_ok (Str.split "/" name) [])
    as (normals & dd & Hst & Hnorm & Hdd).
  { by exists [], []. }
  { apply split_elems. }
  rewrite Hst, rev_app_distr.
  destruct (rev dd) as [|x rest] eqn:Hr.
  - rewrite app_nil_l.
    assert (Hp : Forall plain (rev normals)) by by apply forall_plain_rev.
    remember (Str.join "/" (rev normals)) as j eqn:Ej.
    destruct (String.eqb j "") eqn:Hj.
    + simpl. intros [= <-]. exists ["."]. split; [done|].
      constructor; [by split|constructor].
    + destruct (Str.startswith "/" j) eqn:Hs; [done|].
      destruct (_ || _); [done|].
      intros [= <-]. exists (rev normals). split; [|done].
      unfold os_path_join. by rewrite Hs, Ej.
  - assert (x = "..") as ->.
    { assert (Hin : x ∈ dd).
      { apply list_elem_of_In, in_rev. rewrite Hr. by left. }
      rewrite Forall_forall in Hdd. symmetry. by apply Hdd. }
    rewrite <- app_comm_cons.
    pose proof (join_dotdot (rest ++ rev normals)) as Hj.
    remember (Str.join "/" (".." :: rest ++ rev normals)) as j eqn:Ej.
    destruct (String.eqb j "") eqn:Hemp.
    { apply String.eqb_eq in Hemp. by rewrite Hemp in Hj. }
    rewrite <- orb_assoc, Hj, orb_true_r. done.
Qed.

(** ** Provenance of the register *)



Lemma serve_all_length ops s : length (serve_all ops s).1 = length ops.
Proof.
  revert s. induction ops as [|o ops IH]; intros s; [done|].
  simpl. destruct (serve o s) as [r s1]. specialize (IH s1).
  destruct (serve_all ops s1). simpl in *. by rewrite IH.
Qed.

Lemma serve_all_fst_cons o ops s :
  (serve_all (o :: ops) s).1 = (serve o s).1 :: (serve_all ops (serve o s).2).1.
Proof.
  simpl. destruct (serve o s) as [r s1]. simpl.
  by destruct (serve_all ops s1).
Qed.

Lemma serve_register o s :
  latest_image (serve o s).2 = latest_image s \/
  exists e request,
    o = Upload e request /\
    (serve o s).1 = success (key e) (stamp e) /\
    latest_image (serve o s).2 =
      {| filename := Some (key e);
         timestamp := Some (stamp e) |}.
Proof.
  destruct o as [e request| |name].
  - destruct (serve_upload_outcome e request s) as (resp & s' & -> & Ho).
    destruct Ho; simpl; eauto 6.
  - rewrite serve_latest. by left.
  - rewrite serve_image. by left.
Qed.

Lemma serve_all_register ops s :
  latest_image (serve_all ops s).2 = latest_image s \/
  exists i e request,
    ops !! i = Some (Upload e request) /\
    (serve_all ops s).1 !! i
      = Some (success (key e) (stamp e)) /\
    latest_image (serve_all ops s).2 =
      {| filename := Some (key e);
         timestamp := Some (stamp e) |}.
Proof.
  revert s. induction ops as [|o ops IH]; intros s; [by left|].
  rewrite serve_all_snd_cons, serve_all_fst_cons.
  destruct (IH (serve o s).2) as [Heq|(i & e & request & Hi & Hr & Hl)].
  - rewrite Heq.
    destruct (serve_register o s) as [?|(e & request & -> & Hr & Hl)]; [by left|].
    right. exists 0, e, request. by rewrite Hr.
  - right. by exists (S i), e, request.
Qed.

Lemma serve_failed_register o s :
  r_status (serve o s).1 <> 200 ->
  latest_image (serve o s).2 = latest_image s.
Proof.
  destruct (serve_register o s) as [?|(e & request & -> & Hr & Hl)]; [done|].
  rewrite Hr. done.
Qed.

(** ** Serving in turn is one interleaving *)

Lemma sched_app l1 l2 c : sched (l1 ++ l2) c = sched l2 (sched l1 c).
Proof. apply fold_left_app. Qed.

Lemma sched_step_at before after e (p : prog Response) s t ev p' s' :
  step e p s = Some (ev, p', s') ->
  sched_step {| threads := before ++ (e, p) :: after; shared := s; trace := t |}
    (length before)
  = {| threads := before ++ (e, p') :: after; shared := s'; trace := t ++ [ev] |}.
Proof.
  intros Hs. unfold sched_step. simpl.
  rewrite list_lookup_middle by done. rewrite Hs. f_equal.
  by rewrite insert_app_r_alt, Nat.sub_diag by done.
Qed.

Lemma run_alone e (p : prog Response) before after s t :
  exists n t',
    sched (replicate n (length before))
      {| threads := before ++ (e, p) :: after; shared := s; trace := t |}
    = {| threads := before ++ (e, halted (exec e p s).1) :: after;
         shared := (exec e p s).2;
         trace := t ++ t' |}.
Proof.
  revert s t.
  assert (Hstep : forall q s t ev q' s',
            step e q s = Some (ev, q', s') ->
            (forall s t, exists n t',
               sched (replicate n (length before))
                 {| threads := before ++ (e, q') :: after; shared := s; trace := t |}
               = {| threads := before ++ (e, halted (exec e q' s).1) :: after;
                    shared := (exec e q' s).2; trace := t ++ t' |}) ->
            exists n t',
              sched (replicate n (length before))
                {| threads := before ++ (e, q) :: after; shared := s; trace := t |}
              = {| threads := before ++ (e, halted (exec e q s).1) :: after;
                   shared := (exec e q s).2; trace := t ++ t' |}).
  { intros q s t ev q' s' Hs IH.
    destruct (IH s' (t ++ [ev])) as (n & t' & Hn).
    exists (S n), (ev :: t'). simpl.
    rewrite (sched_step_at _ _ _ _ _ _ _ _ _ Hs).
    rewrite (exec_step _ _ _ _ _ _ Hs).
    fold (sched (replicate n (length before))).
    rewrite Hn. by rewrite <- app_assoc. }
  induction p as [r|x|k IH|path k IH|path data k IH|path k IH|fl k IH|fl v k IH];
    intros s t.
  - exists 0, []. simpl. by rewrite app_nil_r.
  - exists 0, []. simpl. by rewrite app_nil_r.
  - eapply Hstep; [done|]. apply IH.
  - destruct (step e (OpenW path k) s) as [[[ev q'] s']|] eqn:Hs.
    2:{ simpl in Hs. by destruct (fault e). }
    eapply Hstep; [done|].
    simpl in Hs. destruct (fault e); injection Hs as <- <- <-; apply IH.
  - destruct (step e (WriteAll path data k) s) as [[[ev q'] s']|] eqn:Hs.
    2:{ simpl in Hs. by destruct (fault e). }
    eapply Hstep; [done|].
    simpl in Hs. destruct (fault e); injection Hs as <- <- <-; apply IH.
  - eapply Hstep; [done|]. apply IH.
  - eapply Hstep; [done|]. apply IH.
  - eapply Hstep; [done|]. apply IH.
Qed.

Lemma dispatch_returns e view s :
  exists r, (exec e (dispatch view) s).1 = Returned r.
Proof.
  unfold dispatch. rewrite exec_try.
  destruct (exec e view s) as [[r|x] s']; simpl; eauto.
Qed.

Lemma serve_exec o s :
  exec (op_env o) (op_view o) s = (Returned (serve o s).1, (serve o s).2).
Proof.
  unfold serve.
  destruct (dispatch_returns (op_env o)
              match o with
              | Upload _ request => upload_image request
              | Latest => get_latest_image
              | Image name => get_image name
              end s) as [r Hr].
  fold (op_view o) in Hr.
  destruct (exec (op_env o) (op_view o) s) as [out s']. simpl in *. by subst.
Qed.

Lemma run_in_turn ops before s t :
  exists schedule t',
    sched schedule
      {| threads := before ++ map (fun o => (op_env o, op_view o)) ops;
         shared := s; trace := t |}
    = {| threads := before ++ zip_with answered ops (serve_all ops s).1;
         shared := (serve_all ops s).2;
         trace := t ++ t' |}.
Proof.
  revert before s t. induction ops as [|o ops IH]; intros before s t.
  - exists [], []. simpl. by rewrite (app_nil_r t).
  - destruct (run_alone (op_env o) (op_view o) before
                (map (fun o => (op_env o, op_view o)) ops) s t) as (n & t1 & H1).
    rewrite serve_exec in H1. simpl in H1.
    destruct (IH (before ++ [answered o (serve o s).1]) (serve o s).2 (t ++ t1))
      as (l & t2 & H2).
    exists (replicate n (length before) ++ l), (t1 ++ t2).
    rewrite sched_app. simpl map. rewrite H1.
    rewrite <- app_assoc in H2. simpl in H2. unfold answered at 1 in H2.
    rewrite H2. rewrite serve_all_fst_cons, serve_all_snd_cons. simpl.
    by rewrite <- !app_assoc.
Qed.

(** Serving the requests one after the other is one of the schedules. *)
Theorem sched_in_turn ops s :
  exists schedule,
    let c := sched schedule (spawn ops s) in
    shared c = (serve_all ops s).2 /\
    forall i, result_of c i = (serve_all ops s).1 !! i.
Proof.
  destruct (run_in_turn ops [] s []) as (l & t' & H).
  exists l. unfold spawn. simpl in *. rewrite H. simpl. split; [done|].
  intros i. unfold result_of. simpl.
  rewrite lookup_zip_with.
  destruct (ops !! i) as [o|] eqn:Ho; simpl.
  - by destruct ((serve_all ops s).1 !! i).
  - symmetry. apply lookup_ge_None. rewrite serve_all_length.
    by apply lookup_ge_None.
Qed.

(** ** The claims *)

(** C1: in every reachable state, under any interleaving of the atomic
    actions of any upload, query and retrieval requests, a non-empty
    register names a key whose blob write has completed (the write is in
    the trace, before the assignment) and whose file exists; the same
    holds when the requests are served one after the other, and a request
    answered with anything but 200 leaves the register as it was. *)
Theorem C1_register_never_dangles (d : gmap string (list byte)) (ops : list op) :
  (forall schedule f,
     let c := sched schedule (spawn ops (boot d)) in
     filename (latest_image (shared c)) = Some f ->
     EvWrite (blob_path f) ∈ trace c /\
     is_Some (disk (shared c) !! blob_path f)) /\
  (forall schedule, ordered (trace (sched schedule (spawn ops (boot d))))) /\
  (forall f,
     let s := (serve_all ops (boot d)).2 in
     filename (latest_image s) = Some f -> is_Some (disk s !! blob_path f)) /\
  (forall o s,
     r_status (serve o s).1 <> 200 ->
     latest_image (serve o s).2 = latest_image s).
Proof.
  split_and!.
  - intros schedule f c Hf.
    destruct (coherent_sched schedule _ (coherent_spawn ops d)) as [_ Hl Hd _].
    split; [by apply Hl|]. by apply Hd, Hl.
  - intros schedule.
    by destruct (coherent_sched schedule _ (coherent_spawn ops d)).
  - intros f s Hf.
    pose proof (consistent_serve_all ops _ (consistent_boot d)) as Hc.
    unfold consistent in Hc. fold s in Hc. rewrite Hf in Hc.
    destruct (timestamp (latest_image s)); [|done].
    by destruct Hc as (_ & -> & ?).
  - apply serve_failed_register.
Qed.

Lemma C1_witness :
  let c := sched [0; 0; 0; 0; 1; 0] (spawn upload_then_query (boot ∅)) in
  filename (latest_image (shared c)) = Some "image_20240101_120000.jpg" /\
  EvWrite (blob_path "image_20240101_120000.jpg") ∈ trace c /\
  is_Some (disk (shared c) !! blob_path "image_20240101_120000.jpg").
Proof.
  split; [reflexivity|].
  apply (proj1 (C1_register_never_dangles ∅ upload_then_query) [0; 0; 0; 0; 1; 0]).
  reflexivity.
Defined.

(** C2: a multipart upload whose [image] part has a non-empty filename,
    served without an I/O fault, is answered 200 with
    [{status: "success", filename, timestamp}]; the next query returns that
    filename, and retrieving that filename returns the uploaded bytes. *)
Theorem C2_multipart_round_trip e request s file :
  md_get "image" (files request) = Some file ->
  fs_filename file <> "" ->
  fault e = NoFault ->
  let t := stamp e in
  let f := image_name t in
  exists s',
    serve (Upload e request) s = (success f t, s') /\
    serve Latest s' = (descriptor f t, s') /\
    serve (Image f) s' =
      ({| r_body := Raw (fs_stream file); r_status := 200 |}, s').
Proof.
  intros Hf Hn He t f.
  pose proof (upload_multipart e request s file Hf Hn) as Hu.
  rewrite He in Hu. apply serve_upload in Hu.
  eexists. split; [exact Hu|]. split.
  - by rewrite serve_latest.
  - rewrite serve_image. unfold f, t. rewrite safe_join_key. simpl.
    by rewrite lookup_insert_eq.
Qed.

Lemma C2_witness :
  exists s',
    serve (Upload (calm noon) (multipart "frame.jpg" abc)) (boot ∅)
      = (success "image_20240101_120000.jpg" "20240101_120000", s') /\
    serve Latest s'
      = (descriptor "image_20240101_120000.jpg" "20240101_120000", s') /\
    serve (Image "image_20240101_120000.jpg") s'
      = ({| r_body := Raw abc; r_status := 200 |}, s').
Proof.
  apply (C2_multipart_round_trip (calm noon) (multipart "frame.jpg" abc) (boot ∅)
           {| fs_filename := "frame.jpg"; fs_stream := abc |});
    [reflexivity | discriminate | reflexivity].
Defined.

Lemma after_first_split c s :
  Str.contains c s = true ->
  Str.count c s = 1 ->
  Str.split c s !! 1 = Str.after_first c s.
Proof.
  induction s as [|a s IH]; simpl; [done|].
  destruct (Ascii.eqb a c) eqn:Ha.
  - intros _ Hc. assert (Hn : Str.contains c s = false).
    { clear IH. induction s as [|b s IHs]; simpl in *; [done|].
      destruct (Ascii.eqb b c); [done|]. apply IHs. lia. }
    by rewrite (StrFacts.split_no_sep _ _ Hn).
  - intros Hs Hc. rewrite <- (IH Hs Hc).
    by destruct (Str.split c s) as [|h [|h' l]].
Qed.

(** With at most one comma, the text decoded is everything after it, or
    the whole field. *)
Lemma form_payload_prefix v :
  Str.count "," v <= 1 ->
  form_payload v = default v (Str.after_first "," v).
Proof.
  intros Hc. unfold form_payload.
  destruct (Str.contains "," v) eqn:Hs.
  - rewrite after_first_split; [done|done|].
    assert (Str.count "," v <> 0); [|lia].
    clear Hc. induction v as [|a v IH]; simpl in *; [done|].
    destruct (Ascii.eqb a ","); [done|]. by apply IH.
  - assert (Str.after_first "," v = None) as ->; [|done].
    clear Hc. induction v as [|a v IH]; simpl in *; [done|].
    destruct (Ascii.eqb a ","); [done|]. by apply IH.
Qed.

(** With at most one comma the form-field branch does strip the prefix
    and nothing else: what is stored, and served back, is the decoding of
    everything after the comma, or of the whole field. *)
Lemma single_comma_round_trip e v s data :
  fault e = NoFault ->
  Str.count "," v <= 1 ->
  Base64.b64decode (default v (Str.after_first "," v)) = Base64.Ok data ->
  let t := stamp e in
  let f := image_name t in
  exists s',
    serve (Upload e (field_only v)) s = (success f t, s') /\
    disk s' !! blob_path f = Some data /\
    serve (Image f) s' = ({| r_body := Raw data; r_status := 200 |}, s').
Proof.
  intros He Hc Hd t f.
  pose proof (upload_form e (field_only v) s v eq_refl eq_refl) as Hu.
  rewrite He, (form_payload_prefix _ Hc), Hd in Hu. apply serve_upload in Hu.
  eexists. split; [exact Hu|]. simpl. rewrite lookup_insert_eq. split; [done|].
  rewrite serve_image. unfold f, t. rewrite safe_join_key. simpl.
  by rewrite lookup_insert_eq.
Qed.

(** C3: on a form field with a second comma the text handed to the
    decoder is not everything after the first comma.  For the field
    [data:image/jpeg;base64,QUJD,QUJD] everything after the first comma
    decodes to [ABCABC], while the upload is answered 200 and stores, and
    serves back, [ABC]. *)
Theorem C3_second_comma_cuts_payload :
  let v := "data:image/jpeg;base64,QUJD,QUJD" in
  let f := "image_20240101_120000.jpg" in
  let s' := (serve (Upload (calm noon) (field_only v)) (boot ∅)).2 in
  Str.after_first "," v = Some "QUJD,QUJD" /\
  Base64.b64decode "QUJD,QUJD" = Base64.Ok (abc ++ abc) /\
  form_payload v = "QUJD" /\
  (serve (Upload (calm noon) (field_only v)) (boot ∅)).1
    = success f "20240101_120000" /\
  disk s' !! blob_path f = Some abc /\
  (serve (Image f) s').1 = {| r_body := Raw abc; r_status := 200 |}.
Proof. by vm_compute. Qed.

Lemma same_second_strftime d1 d2 :
  same_second d1 d2 -> strftime d1 = strftime d2.
Proof.
  intros (Hy & Hm & Hd & Hh & Hmi & Hs). unfold strftime.
  by rewrite Hy, Hm, Hd, Hh, Hmi, Hs.
Qed.

Lemma upload_ok e request s r s' :
  serve (Upload e request) s = (r, s') -> r_status r = 200 ->
  r = success (key e) (stamp e) /\
  latest_image s' =
    {| filename := Some (key e);
       timestamp := Some (stamp e) |} /\
  exists data,
    carries request data /\
    disk s' = <[blob_path (key e) := data]> (disk s).
Proof.
  intros Hs Hr.
  destruct (serve_upload_outcome e request s) as (resp & s1 & Hs1 & Ho).
  rewrite Hs in Hs1. injection Hs1 as <- <-.
  destruct Ho; try done. eauto.
Qed.




(** C5: in every state reached by serving requests from process start,
    the query is answered 404 exactly when the register is empty, then
    with the body [{error: "No image uploaded yet"}]; otherwise it is
    answered 200 with [{filename, timestamp, url}], [url] being
    [/images/<filename>], and retrieving that filename returns the stored
    bytes.  The query changes neither the register nor the store. *)
Theorem C5_query_reports_register d ops :
  let s := (serve_all ops (boot d)).2 in
  (serve Latest s).2 = s /\
  (r_status (serve Latest s).1 = 404 <-> filename (latest_image s) = None) /\
  (filename (latest_image s) = None ->
     timestamp (latest_image s) = None /\
     (serve Latest s).1 = failure "No image uploaded yet" 404) /\
  (forall f,
     filename (latest_image s) = Some f ->
     exists t data,
       timestamp (latest_image s) = Some t /\
       (serve Latest s).1 = descriptor f t /\
       disk s !! blob_path f = Some data /\
       serve (Image f) s = ({| r_body := Raw data; r_status := 200 |}, s)).
Proof.
  intros s.
  pose proof (consistent_serve_all ops _ (consistent_boot d)) as Hc.
  fold s in Hc. apply consistent_cases in Hc.
  rewrite serve_latest.
  destruct Hc as [Hl|(dt & Hl & [data Hd])]; rewrite Hl; simpl.
  - split_and!; try done.
  - split_and!; try done.
    intros f [= <-]. exists (strftime dt), data. split_and!; try done.
    rewrite serve_image, safe_join_key. by rewrite Hd.
Qed.

Lemma C5_witness :
  let s := (serve_all [Upload (calm noon) (multipart "a.jpg" abc)] (boot ∅)).2 in
  exists t data,
    timestamp (latest_image s) = Some t /\
    (serve Latest s).1 = descriptor "image_20240101_120000.jpg" t /\
    disk s !! blob_path "image_20240101_120000.jpg" = Some data /\
    serve (Image "image_20240101_120000.jpg") s
      = ({| r_body := Raw data; r_status := 200 |}, s).
Proof.
  apply (proj2 (proj2 (proj2
           (C5_query_reports_register ∅
              [Upload (calm noon) (multipart "a.jpg" abc)])))).
  reflexivity.
Defined.

(** C6 as stated fails: an upload whose [image] form field is the empty
    string, with no file part, is answered 200, stores an empty blob and
    moves the register. *)
Lemma C6_empty_field_accepted :
  let request := field_only "" in
  let r := serve (Upload (calm noon) request) (boot ∅) in
  md_in "image" (files request) = false /\
  md_get "image" (form request) = Some "" /\
  r.1 = success "image_20240101_120000.jpg" "20240101_120000" /\
  r_status r.1 = 200 /\
  latest_image r.2 <> latest_image (boot ∅) /\
  disk r.2 !! blob_path "image_20240101_120000.jpg" = Some [] /\
  disk (boot ∅) !! blob_path "image_20240101_120000.jpg" = None.
Proof. by vm_compute. Qed.

(** C6, as amended: an upload with no [image] key in either the files or
    the form, or whose [image] file part has an empty filename, is answered
    400 with a JSON body whose [error] names what is missing, and leaves
    register and store unchanged. *)
Theorem C6_missing_image_rejected e request s :
  (md_in "image" (files request) = false /\
   md_in "image" (form request) = false) \/
  (exists file, md_get "image" (files request) = Some file /\
                fs_filename file = "") ->
  exists msg,
    (msg = "No image data found" \/ msg = "No image selected") /\
    serve (Upload e request) s = (failure msg 400, s).
Proof.
  intros [[H1 H2]|(file & H1 & H2)].
  - exists "No image data found". split; [by left|].
    by apply serve_upload, upload_none.
  - exists "No image selected". split; [by right|].
    by eapply serve_upload, upload_unnamed.
Qed.

Lemma C6_witness :
  exists msg,
    (msg = "No image data found" \/ msg = "No image selected") /\
    serve (Upload (calm noon) (multipart "" abc)) (boot ∅)
      = (failure msg 400, boot ∅).
Proof.
  apply (C6_missing_image_rejected (calm noon) (multipart "" abc) (boot ∅)).
  right. exists {| fs_filename := ""; fs_stream := abc |}.
  split; reflexivity.
Defined.

(** C7: the upload view always returns a response.  Whatever exception
    the body of its [try] raises becomes a 500 response whose [error] is
    [str(e)], with the register as it was before the request; this is
    what happens when opening the blob file fails, when writing it fails,
    and when the base64 decoder rejects the field. *)
Theorem C7_failures_become_500 e request s :
  (exists resp s', exec e (upload_image request) s = (Returned resp, s')) /\
  (forall x s',
     exec e (upload_body request) s = (Raised x, s') ->
     exec e (upload_image request) s = (Returned (failure (str x) 500), s') /\
     serve (Upload e request) s = (failure (str x) 500, s') /\
     latest_image s' = latest_image s) /\
  (forall msg,
     reaches_store request -> fault e = OpenFails msg ->
     serve (Upload e request) s = (failure msg 500, s)) /\
  (forall msg n data,
     reaches_store request -> carries request data ->
     fault e = WriteFails msg n ->
     exists s', serve (Upload e request) s = (failure msg 500, s') /\
                latest_image s' = latest_image s) /\
  (forall v msg,
     md_get "image" (files request) = None ->
     md_get "image" (form request) = Some v ->
     Base64.b64decode (form_payload v) = Base64.Error msg ->
     (forall m, fault e <> OpenFails m) ->
     exists s', serve (Upload e request) s = (failure msg 500, s') /\
                latest_image s' = latest_image s).
Proof.
  destruct (upload_outcomes e request s) as (resp & s1 & Hu & Ho).
  split_and!; [eauto|..].
  - intros x s' Hb.
    assert (Hx : exec e (upload_image request) s
                 = (Returned (failure (str x) 500), s')).
    { unfold upload_image. by rewrite exec_try, Hb. }
    split; [done|]. split; [by apply serve_upload|].
    rewrite Hu in Hx. injection Hx as -> ->.
    inversion Ho; subst; try done.
  - intros msg [(file & Hf & Hn)|(Hf & [v Hv])] He; apply serve_upload.
    + by rewrite (upload_multipart _ _ _ _ Hf Hn), He.
    + by rewrite (upload_form _ _ _ _ Hf Hv), He.
  - intros msg n data [(file & Hf & Hn)|(Hf & [v Hv])] Hc He.
    + eexists. split; [apply serve_upload|];
        [by rewrite (upload_multipart _ _ _ _ Hf Hn), He|done].
    + destruct Hc as [file Hf'|v' data Hf' Hv' Hd]; [congruence|].
      assert (v' = v) as -> by congruence.
      eexists. split; [apply serve_upload|];
        [by rewrite (upload_form _ _ _ _ Hf Hv), He, Hd|done].
  - intros v msg Hf Hv Hd He.
    eexists. split; [apply serve_upload|].
    + rewrite (upload_form _ _ _ _ Hf Hv), Hd.
      destruct (fault e) as [|m|m n] eqn:Hfl; [done| |done]. by destruct (He m).
    + done.
Qed.

Lemma C7_witness :
  let e := calm noon in
  let request := field_only "QU" in
  let s' := set_disk (<[blob_path "image_20240101_120000.jpg" := []]> ∅) (boot ∅) in
  exec e (upload_image request) (boot ∅)
    = (Returned (failure "Incorrect padding" 500), s') /\
  serve (Upload e request) (boot ∅) = (failure "Incorrect padding" 500, s') /\
  latest_image s' = latest_image (boot ∅).
Proof.
  intros e request s'.
  apply (proj1 (proj2 (C7_failures_become_500 e request (boot ∅)))
           (Exc "Incorrect padding") s').
  reflexivity.
Defined.

(** C8: retrieval never changes the state, and answers either 404 or
    200 with the bytes of a file whose path descends from the upload
    folder without a parent link.  A name without a slash, other than
    [..], is looked up as a key of the upload folder; [..] is answered
    404, and so is every name that resolves to no stored file. *)
Theorem C8_retrieval_stays_inside name s :
  (serve (Image name) s).2 = s /\
  ((serve (Image name) s).1 = page 404 \/
   exists path data,
     inside_root path /\ disk s !! path = Some data /\
     (serve (Image name) s).1 = {| r_body := Raw data; r_status := 200 |}) /\
  (Str.contains "/" name = false -> name <> ".." ->
   (serve (Image name) s).1 =
     match disk s !! blob_path name with
     | Some data => {| r_body := Raw data; r_status := 200 |}
     | None => page 404
     end) /\
  (name = ".." -> (serve (Image name) s).1 = page 404) /\
  ((forall path, safe_join UPLOAD_FOLDER name = Some path ->
                 disk s !! path = None) ->
   (serve (Image name) s).1 = page 404).
Proof.
  rewrite serve_image. simpl. split_and!; [done|..].
  - destruct (safe_join UPLOAD_FOLDER name) as [path|] eqn:Hj; [|by left].
    destruct (disk s !! path) as [data|] eqn:Hd; [|by left].
    right. exists path, data. split_and!; try done. by eapply safe_join_inside.
  - intros Hn Hd. rewrite (safe_join_no_slash _ Hn Hd).
    by destruct (disk s !! blob_path name).
  - by intros ->.
  - intros Hnone. destruct (safe_join UPLOAD_FOLDER name) as [path|]; [|done].
    by rewrite (Hnone path eq_refl).
Qed.

Lemma C8_witness :
  let s := (serve (Upload (calm noon) (multipart "a.jpg" abc)) (boot ∅)).2 in
  (serve (Image "does-not-exist.jpg") s).1 = page 404 /\
  (serve (Image "..") s).1 = page 404 /\
  (serve (Image "x/../../app.py") s).1 = page 404.
Proof.
  intros s. split_and!.
  - destruct (C8_retrieval_stays_inside "does-not-exist.jpg" s)
      as (_ & _ & Hkey & _).
    rewrite Hkey; [reflexivity | reflexivity | discriminate].
  - destruct (C8_retrieval_stays_inside ".." s) as (_ & _ & _ & Hup & _).
    apply Hup. reflexivity.
  - destruct (C8_retrieval_stays_inside "x/../../app.py" s)
      as (_ & _ & _ & _ & Habsent).
    apply Habsent. intros path Hp. discriminate Hp.
Defined.

(** C9 as stated fails: a query scheduled between the two assignments of
    a second upload reports the second upload's filename with the first
    upload's timestamp. *)
Lemma C9_torn_read :
  let c := sched query_between_assignments (spawn two_uploads_one_query (boot ∅)) in
  trace c =
    [EvClock; EvOpen "uploads/image_20240101_120000.jpg";
     EvWrite "uploads/image_20240101_120000.jpg";
     EvSet Filename "image_20240101_120000.jpg";
     EvSet Timestamp "20240101_120000";
     EvClock; EvOpen "uploads/image_20240101_120001.jpg";
     EvWrite "uploads/image_20240101_120001.jpg";
     EvSet Filename "image_20240101_120001.jpg";
     EvGet Filename; EvGet Filename; EvGet Timestamp; EvGet Filename] /\
  result_of c 2 =
    Some (jsonify [("filename", JStr "image_20240101_120001.jpg");
                   ("timestamp", JStr "20240101_120000");
                   ("url", JStr "/images/image_20240101_120001.jpg")] 200).
Proof. by vm_compute. Qed.

(** C9, as amended: when requests are served one at a time, a query
    answered 200 reports a filename and a timestamp that one and the same
    earlier upload acknowledged, and the URL of that filename. *)
Theorem C9_whole_record_when_served_in_turn d ops f t u :
  (serve Latest (serve_all ops (boot d)).2).1
    = jsonify [("filename", f); ("timestamp", t); ("url", u)] 200 ->
  exists i e request fn ts,
    ops !! i = Some (Upload e request) /\
    (serve_all ops (boot d)).1 !! i = Some (success fn ts) /\
    f = JStr fn /\ t = JStr ts /\ u = JStr ("/images/" +:+ fn).
Proof.
  rewrite serve_latest.
  destruct (serve_all_register ops (boot d))
    as [Hl|(i & e & request & Hi & Hr & Hl)]; rewrite Hl; simpl; [done|].
  intros [= <- <- <-].
  by exists i, e, request, (key e), (stamp e).
Qed.

Lemma C9_witness :
  exists i e request fn ts,
    two_uploads_one_query !! i = Some (Upload e request) /\
    (serve_all two_uploads_one_query (boot ∅)).1 !! i = Some (success fn ts) /\
    JStr "image_20240101_120001.jpg" = JStr fn /\
    JStr "20240101_120001" = JStr ts /\
    JStr "/images/image_20240101_120001.jpg" = JStr ("/images/" +:+ fn).
Proof.
  apply (C9_whole_record_when_served_in_turn ∅ two_uploads_one_query).
  reflexivity.
Defined.

(** C10: when the request has an [image] file part, the upload is served
    as if the form were anything else: same response, same state; and
    when it is answered 200 the blob under the new key is the file part's
    bytes. *)
Theorem C10_file_part_wins e request form' s :
  md_in "image" (files request) = true ->
  serve (Upload e {| files := files request; form := form' |}) s
    = serve (Upload e request) s /\
  (forall resp s',
     serve (Upload e request) s = (resp, s') -> r_status resp = 200 ->
     exists file,
       md_get "image" (files request) = Some file /\
       disk s' !! blob_path (key e)
         = Some (fs_stream file)).
Proof.
  intros Hin. split.
  - unfold serve, op_view, op_env, upload_image, upload_body, store_image.
    simpl. by rewrite Hin.
  - intros resp s' Hs Hr.
    destruct (upload_ok _ _ _ _ _ Hs Hr) as (_ & _ & data & Hc & Hd).
    unfold md_in in Hin.
    destruct Hc as [file Hf|v data Hf Hv Hdec]; [|by rewrite Hf in Hin].
    exists file. split; [done|]. by rewrite Hd, lookup_insert_eq.
Qed.

Lemma C10_witness :
  Base64.b64decode "eHl6" = Base64.Ok xyz /\
  serve (Upload (calm noon) (multipart "a.jpg" abc)) (boot ∅)
    = serve (Upload (calm noon) both_forms) (boot ∅) /\
  exists file,
    md_get "image" (files both_forms) = Some file /\
    disk (serve (Upload (calm noon) both_forms) (boot ∅)).2
      !! blob_path (image_name (strftime (clock (calm noon))))
    = Some (fs_stream file).
Proof.
  split; [reflexivity|].
  destruct (C10_file_part_wins (calm noon) both_forms [] (boot ∅) eq_refl)
    as [H1 H2].
  split; [exact H1|].
  apply (H2 _ _ eq_refl). reflexivity.
Defined.

(** * Beyond the claims: histories of requests *)

Lemma blob_path_no_slash f :
  Str.contains "/" f = false -> blob_path f = "uploads/" +:+ f.
Proof.
  intros H. unfold blob_path, os_path_join.
  by rewrite (StrFacts.startswith_slash _ H).
Qed.

Lemma key_inj d1 d2 :
  valid_datetime d1 -> valid_datetime d2 ->
  image_name (strftime d1) = image_name (strftime d2) -> same_second d1 d2.
Proof.
  intros H1 H2 H. apply strftime_inj; [done|done|].
  unfold image_name in H. apply String.app_inj in H.
  unfold strftime, pad4, pad2 in *. cbn [String.append] in *.
  injection H as Y1 Y2 Y3 Y4 M1 M2 D1 D2 h1 h2 I1 I2 S1 S2.
  by rewrite Y1, Y2, Y3, Y4, M1, M2, D1, D2, h1, h2, I1, I2, S1, S2.
Qed.

Lemma blob_path_key_inj d1 d2 :
  valid_datetime d1 -> valid_datetime d2 ->
  blob_path (image_name (strftime d1)) = blob_path (image_name (strftime d2)) ->
  same_second d1 d2.
Proof.
  intros H1 H2 H. apply key_inj; [done|done|].
  rewrite !blob_path_no_slash in H
    by apply image_name_no_slash, strftime_no_slash.
  by apply String.app_inj in H.
Qed.

Lemma serve_other_path o s p :
  match o with Upload e _ => blob_path (key e) <> p | _ => True end ->
  disk (serve o s).2 !! p = disk s !! p.
Proof.
  destruct o as [e request| |name]; intros Hp.
  - destruct (serve_upload_outcome e request s) as (resp & s' & -> & Ho).
    destruct Ho; simpl; try done; by rewrite lookup_insert_ne.
  - by rewrite serve_latest.
  - by rewrite serve_image.
Qed.

Lemma serve_all_other_path ops s p :
  Forall (fun o => match o with
                   | Upload e _ => blob_path (key e) <> p
                   | _ => True
                   end) ops ->
  disk (serve_all ops s).2 !! p = disk s !! p.
Proof.
  revert s. induction ops as [|o ops IH]; intros s Hall; [done|].
  inversion Hall; subst. rewrite serve_all_snd_cons, IH by done.
  by apply serve_other_path.
Qed.

(** X1: once an upload is answered 200, its bytes are what
    [/images/<its key>] returns, and they still are after any further
    requests served in turn, as long as no later upload is stamped with the
    same second (the clock readings being in the range in which [%Y] has
    four digits). *)
Theorem frame_persists e request s ops :
  valid_datetime (clock e) ->
  r_status (serve (Upload e request) s).1 = 200 ->
  Forall (other_second (clock e)) ops ->
  let s1 := (serve (Upload e request) s).2 in
  let s2 := (serve_all ops s1).2 in
  exists data,
    carries request data /\
    serve (Image (key e)) s1 = ({| r_body := Raw data; r_status := 200 |}, s1) /\
    serve (Image (key e)) s2 = ({| r_body := Raw data; r_status := 200 |}, s2).
Proof.
  intros Hv Hr Hops s1 s2.
  destruct (serve (Upload e request) s) as [r s1'] eqn:Hs. simpl in *.
  destruct (upload_ok _ _ _ _ _ Hs Hr) as (_ & _ & data & Hc & Hd).
  exists data. split; [done|].
  assert (H1 : disk s1 !! blob_path (key e) = Some data).
  { unfold s1. by rewrite Hd, lookup_insert_eq. }
  assert (H2 : disk s2 !! blob_path (key e) = Some data).
  { unfold s2. rewrite serve_all_other_path; [done|].
    eapply Forall_impl; [exact Hops|]. intros [e' r'| |]; simpl; try done.
    intros [Hv' Hne] Heq. apply Hne. by apply blob_path_key_inj. }
  rewrite !serve_image, !safe_join_key. by rewrite H1, H2.
Qed.

Lemma frame_persists_witness :
  let e := calm noon in
  let s1 := (serve (Upload e (multipart "a.jpg" abc)) (boot ∅)).2 in
  let s2 := (serve_all [Latest; Upload (calm one_past_noon) (multipart "b.jpg" xyz);
                        Image ".."] s1).2 in
  exists data,
    carries (multipart "a.jpg" abc) data /\
    serve (Image (key e)) s1 = ({| r_body := Raw data; r_status := 200 |}, s1) /\
    serve (Image (key e)) s2 = ({| r_body := Raw data; r_status := 200 |}, s2).
Proof.
  apply (frame_persists (calm noon) (multipart "a.jpg" abc) (boot ∅)).
  - unfold valid_datetime. simpl. lia.
  - reflexivity.
  - repeat constructor; simpl; try lia.
    intros (_ & _ & _ & _ & _ & H). discriminate H.
Defined.

(** X2: for clock readings in range, two uploads get the same
    file name, and the same path under [uploads/], exactly when their
    clocks read the same second: the name generator of lines 38 to 40 (and
    53 to 55) loses the microseconds and nothing else. *)
Theorem key_identifies_second d1 d2 :
  valid_datetime d1 -> valid_datetime d2 ->
  (image_name (strftime d1) = image_name (strftime d2) <-> same_second d1 d2) /\
  (blob_path (image_name (strftime d1)) = blob_path (image_name (strftime d2))
   <-> same_second d1 d2).
Proof.
  intros H1 H2. split; split.
  - by apply key_inj.
  - intros H. by rewrite (same_second_strftime _ _ H).
  - by apply blob_path_key_inj.
  - intros H. by rewrite (same_second_strftime _ _ H).
Qed.

Lemma key_identifies_second_witness :
  (image_name (strftime noon) = image_name (strftime one_past_noon)
   <-> same_second noon one_past_noon) /\
  (blob_path (image_name (strftime noon))
   = blob_path (image_name (strftime one_past_noon))
   <-> same_second noon one_past_noon).
Proof.
  apply (key_identifies_second noon one_past_noon);
    unfold valid_datetime; simpl; lia.
Defined.

(** X3: any upload answered 200, in either encoding, is
    acknowledged with the key and timestamp of its clock reading; the next
    [/latest] names that key and [/images/<key>] returns the bytes the
    request carried. *)
Theorem accepted_upload_round_trip e request s :
  r_status (serve (Upload e request) s).1 = 200 ->
  let s' := (serve (Upload e request) s).2 in
  exists data,
    carries request data /\
    (serve (Upload e request) s).1 = success (key e) (stamp e) /\
    serve Latest s' = (descriptor (key e) (stamp e), s') /\
    serve (Image (key e)) s' = ({| r_body := Raw data; r_status := 200 |}, s').
Proof.
  intros Hr s'. unfold s'.
  destruct (serve (Upload e request) s) as [r s1] eqn:Hs. simpl in *.
  destruct (upload_ok _ _ _ _ _ Hs Hr) as (-> & Hl & data & Hc & Hd).
  exists data. split_and!; try done.
  - rewrite serve_latest, Hl. done.
  - rewrite serve_image, safe_join_key, Hd, lookup_insert_eq. done.
Qed.

Lemma accepted_upload_round_trip_witness :
  let e := calm noon in
  let request := field_only "data:image/jpeg;base64,QUJD" in
  let s' := (serve (Upload e request) (boot ∅)).2 in
  exists data,
    carries request data /\
    (serve (Upload e request) (boot ∅)).1 = success (key e) (stamp e) /\
    serve Latest s' = (descriptor (key e) (stamp e), s') /\
    serve (Image (key e)) s' = ({| r_body := Raw data; r_status := 200 |}, s').
Proof.
  apply (accepted_upload_round_trip (calm noon)
           (field_only "data:image/jpeg;base64,QUJD") (boot ∅)).
  reflexivity.
Defined.

(** X4: the form-field branch opens the file for writing
    before it decodes (lines 58, 59).  So a field that is not valid base64,
    arriving in the second of an accepted frame, is answered 500 and leaves
    the register as it was, but the file the register names is now empty:
    [/latest] still points at it and [/images] returns zero bytes. *)
Theorem bad_payload_wipes_frame e1 e2 request v msg s :
  same_second (clock e1) (clock e2) ->
  r_status (serve (Upload e1 request) s).1 = 200 ->
  Base64.b64decode (form_payload v) = Base64.Error msg ->
  (forall m, fault e2 <> OpenFails m) ->
  let s1 := (serve (Upload e1 request) s).2 in
  let s2 := (serve (Upload e2 (field_only v)) s1).2 in
  (serve (Upload e2 (field_only v)) s1).1 = failure msg 500 /\
  latest_image s2 = latest_image s1 /\
  serve Latest s2 = (descriptor (key e1) (stamp e1), s2) /\
  serve (Image (key e1)) s2 = ({| r_body := Raw []; r_status := 200 |}, s2).
Proof.
  intros Hsame Hr Hd He s1 s2.
  destruct (serve (Upload e1 request) s) as [r s1'] eqn:Hs. simpl in *.
  destruct (upload_ok _ _ _ _ _ Hs Hr) as (_ & Hl & _).
  pose proof (upload_form e2 (field_only v) s1 v eq_refl eq_refl) as Hu.
  rewrite Hd in Hu.
  assert (Hu' : exec e2 (upload_image (field_only v)) s1 =
                (Returned (failure msg 500),
                 set_disk (<[blob_path (key e2) := []]> (disk s1)) s1)).
  { rewrite Hu. destruct (fault e2) as [|m|m n] eqn:Hf; try done.
    by destruct (He m). }
  apply serve_upload in Hu'. unfold s2. rewrite Hu'. simpl.
  split_and!; try done.
  - rewrite serve_latest. simpl. unfold s1. by rewrite Hl.
  - rewrite serve_image, safe_join_key. simpl.
    rewrite (same_second_strftime _ _ Hsame). by rewrite lookup_insert_eq.
Qed.

Lemma bad_payload_wipes_frame_witness :
  let s1 := (serve (Upload (calm noon) (multipart "a.jpg" abc)) (boot ∅)).2 in
  let s2 := (serve (Upload (calm noon_later) (field_only "QU")) s1).2 in
  (serve (Upload (calm noon_later) (field_only "QU")) s1).1
    = failure "Incorrect padding" 500 /\
  latest_image s2 = latest_image s1 /\
  serve Latest s2 = (descriptor (key (calm noon)) (stamp (calm noon)), s2) /\
  serve (Image (key (calm noon))) s2
    = ({| r_body := Raw []; r_status := 200 |}, s2).
Proof.
  apply (bad_payload_wipes_frame (calm noon) (calm noon_later)
           (multipart "a.jpg" abc) "QU" "Incorrect padding" (boot ∅)).
  - by repeat split.
  - reflexivity.
  - reflexivity.
  - intros m. discriminate.
Defined.

Lemma named_serve o s : named s -> named (serve o s).2.
Proof.
  intros [t Ht].
  destruct (serve_register o s) as [Heq|(e & request & _ & _ & Hl)].
  - exists t. by rewrite Heq.
  - exists (stamp e). by rewrite Hl.
Qed.

Lemma named_serve_all ops s : named s -> named (serve_all ops s).2.
Proof.
  revert s. induction ops as [|o ops IH]; intros s Hn; [done|].
  rewrite serve_all_snd_cons. by apply IH, named_serve.
Qed.

(** X5: nothing ever resets the register: after one upload
    answered 200, [/latest] answers 200 after any further requests, and
    the register names a generated file. *)
Theorem latest_never_404_again e request s ops :
  r_status (serve (Upload e request) s).1 = 200 ->
  let s' := (serve_all ops (serve (Upload e request) s).2).2 in
  r_status (serve Latest s').1 = 200 /\
  exists t, filename (latest_image s') = Some (image_name t).
Proof.
  intros Hr s'.
  assert (Hn : named s').
  { apply named_serve_all.
    destruct (serve (Upload e request) s) as [r s1] eqn:Hs. simpl in *.
    destruct (upload_ok _ _ _ _ _ Hs Hr) as (_ & Hl & _).
    exists (stamp e). by rewrite Hl. }
  split; [|done]. destruct Hn as [t Ht]. by rewrite serve_latest, Ht.
Qed.

Lemma latest_never_404_again_witness :
  let s' := (serve_all [Upload (calm one_past_noon) (field_only "QU"); Image "x"]
               (serve (Upload (calm noon) (multipart "a.jpg" abc)) (boot ∅)).2).2 in
  r_status (serve Latest s').1 = 200 /\
  exists t, filename (latest_image s') = Some (image_name t).
Proof.
  apply (latest_never_404_again (calm noon) (multipart "a.jpg" abc) (boot ∅)).
  reflexivity.
Defined.

Lemma parsed_status_table e request s :
  let r := (serve (Upload e request) s).1 in
  (r_status r = 200 \/ r_status r = 400 \/ r_status r = 500) /\
  (r_status r = 400 <-> ~ reaches_store request) /\
  (r_status r = 500 <->
     reaches_store request /\ (fault e <> NoFault \/ undecodable request)) /\
  (r_status r = 200 <->
     reaches_store request /\ fault e = NoFault /\ ~ undecodable request).
Proof.
  intros r. unfold r.
  destruct (md_get "image" (files request)) as [file|] eqn:Hf.
  - assert (Hu : ~ undecodable request).
    { intros (v & msg & Hn & _). congruence. }
    destruct (decide (fs_filename file = "")) as [Hn|Hn].
    + rewrite (serve_upload _ _ _ _ _ (upload_unnamed e request s file Hf Hn)).
      assert (Hr : ~ reaches_store request).
      { intros [(f & Hf' & H)|[Hf' _]]; congruence. }
      simpl. split_and!; [auto| | |]; split; try done; intros []; done.
    + assert (Hr : reaches_store request) by (left; eauto).
      pose proof (upload_multipart e request s file Hf Hn) as Hm.
      destruct (fault e) eqn:Hfl; apply serve_upload in Hm; rewrite Hm; simpl;
        (split_and!; [auto| | |]); split; try done;
        try (intros (_ & [H|H])); try (intros (_ & H & _)); try done;
        try (intros _; split; [done|]; by left).
  - destruct (md_get "image" (form request)) as [v|] eqn:Hv.
    + assert (Hr : reaches_store request) by (right; eauto).
      pose proof (upload_form e request s v Hf Hv) as Hm.
      destruct (Base64.b64decode (form_payload v)) as [data|msg] eqn:Hd.
      * assert (Hu : ~ undecodable request).
        { intros (v' & msg & _ & Hv' & Hd'). congruence. }
        destruct (fault e) eqn:Hfl; apply serve_upload in Hm; rewrite Hm; simpl;
          (split_and!; [auto| | |]); split; try done;
          try (intros (_ & [H|H])); try (intros (_ & H & _)); try done;
          try (intros _; split; [done|]; by left).
      * assert (Hu : undecodable request) by (exists v, msg; done).
        destruct (fault e) eqn:Hfl; apply serve_upload in Hm; rewrite Hm; simpl;
          (split_and!; [auto| | |]); split; try done;
          try (intros (_ & _ & H)); try done;
          try (intros _; split; [done|]; by right).
    + assert (Hr : ~ reaches_store request).
      { intros [(f & Hf' & H)|[_ [? Hv']]]; congruence. }
      rewrite (serve_upload _ _ _ _ _ (upload_none e request s
                 ltac:(unfold md_in; by rewrite Hf)
                 ltac:(unfold md_in; by rewrite Hv))).
      simpl. split_and!; [auto| | |]; split; try done; intros []; done.
Qed.

Lemma receive_parsed e request s :
  receive e (Parsed request) s = serve (Upload e request) s.
Proof. done. Qed.

Lemma receive_refused e x s :
  receive e (Refused x) s = (failure (str x) 500, s).
Proof. done. Qed.

(** X6: the status of an upload is 200, 400 or 500, and which
    one is decided as follows.  500 exactly when werkzeug raises while
    line 28 has it parse the body (the answer then carries [str] of that
    exception and nothing is changed), or the request has a usable [image]
    input and a file operation fails or the form field does not decode;
    400 exactly when the body is parsed and has no [image] input or a file
    part without a name; 200 exactly when the body is parsed, has a usable
    input, the field (if it is one) decodes and the file operations
    succeed. *)
Theorem upload_status_table e a s :
  let r := (receive e a s).1 in
  (r_status r = 200 \/ r_status r = 400 \/ r_status r = 500) /\
  (r_status r = 400 <->
     exists request, a = Parsed request /\ ~ reaches_store request) /\
  (r_status r = 500 <->
     (exists x, a = Refused x) \/
     exists request,
       a = Parsed request /\ reaches_store request /\
       (fault e <> NoFault \/ undecodable request)) /\
  (r_status r = 200 <->
     exists request,
       a = Parsed request /\ reaches_store request /\
       fault e = NoFault /\ ~ undecodable request) /\
  (forall x, a = Refused x -> receive e a s = (failure (str x) 500, s)).
Proof.
  intros r. unfold r. destruct a as [request|x].
  - rewrite receive_parsed.
    destruct (parsed_status_table e request s) as (H1 & H4 & H5 & H2).
    split_and!; [done| | | |done].
    + rewrite H4. split; [by eauto|]. by intros (? & [= <-] & ?).
    + rewrite H5. split; [by eauto|].
      intros [[? ?]|(? & [= <-] & ?)]; done.
    + rewrite H2. split; [by eauto|]. by intros (? & [= <-] & ?).
  - rewrite receive_refused. simpl. split_and!.
    + auto.
    + split; [done|]. by intros (? & ? & _).
    + split; [eauto|done].
    + split; [done|]. by intros (? & ? & _).
    + by intros ? [= <-].
Qed.

Lemma serve_upload_register e request s :
  latest_image (serve (Upload e request) s).2 =
  if Nat.eqb (r_status (serve (Upload e request) s).1) 200
  then {| filename := Some (key e); timestamp := Some (stamp e) |}
  else latest_image s.
Proof.
  destruct (serve_upload_outcome e request s) as (resp & s' & -> & Ho).
  by destruct Ho.
Qed.

(** X7: after any requests served in turn the register holds the
    key and timestamp of the last upload that was answered 200, last in
    the order of serving whatever the clocks read, and is as it was before
    when none was. *)
Theorem last_accepted_wins ops s :
  latest_image (serve_all ops s).2 =
  match last_accepted ops (serve_all ops s).1 with
  | Some e => {| filename := Some (key e); timestamp := Some (stamp e) |}
  | None => latest_image s
  end.
Proof.
  revert s. induction ops as [|o ops IH]; intros s; [done|].
  rewrite serve_all_snd_cons, serve_all_fst_cons. simpl.
  rewrite IH.
  destruct (last_accepted ops (serve_all ops (serve o s).2).1); [done|].
  destruct o as [e request| |name].
  - rewrite serve_upload_register.
    by destruct (Nat.eqb (r_status (serve (Upload e request) s).1) 200).
  - by rewrite serve_latest.
  - by rewrite serve_image.
Qed.

(** The order of serving, not of the clocks: an upload stamped earlier
    but served later owns the register. *)
Example earlier_clock_served_last :
  latest_image
    (serve_all [Upload (calm one_past_noon) (multipart "b.jpg" xyz);
                Upload (calm noon) (multipart "a.jpg" abc)] (boot ∅)).2
  = {| filename := Some "image_20240101_120000.jpg";
       timestamp := Some "20240101_120000" |}.
Proof. reflexivity. Qed.

Lemma reads_try {R} (p : prog R) h :
  reads p -> (forall x, reads (h x)) -> reads (try_except p h).
Proof.
  induction p as [r|x|k IH|path k IH|path data k IH|path k IH|fl k IH|fl v k IH];
    simpl; try done; eauto.
Qed.

Lemma reads_view o : read_only o = true -> reads (op_view o).
Proof.
  destruct o as [e request| |name]; [done| |]; intros _.
  - apply reads_try; [|done]. simpl. intros v. by destruct (truthy v).
  - apply reads_try; [|done].
    unfold get_image, send_from_directory.
    destruct (safe_join UPLOAD_FOLDER name); simpl; [|done].
    intros r. by destruct r.
Qed.

Lemma reads_step {R} e (p p' : prog R) s s' ev :
  reads p -> step e p s = Some (ev, p', s') -> s' = s /\ reads p'.
Proof.
  destruct p; simpl; try done; intros Hr [= <- <- <-]; eauto.
Qed.

Lemma reads_sched schedule c :
  Forall (fun th => reads th.2) (threads c) ->
  shared (sched schedule c) = shared c.
Proof.
  revert c. induction schedule as [|i l IH]; intros c Hall; [done|].
  simpl. fold (sched l).
  unfold sched_step.
  destruct (threads c !! i) as [[e p]|] eqn:Hi; [|by apply IH].
  destruct (step e p (shared c)) as [[[ev p'] s']|] eqn:Hs; [|by apply IH].
  assert (Hp : reads p).
  { rewrite Forall_forall in Hall. apply (Hall (e, p)).
    by eapply list_elem_of_lookup_2. }
  destruct (reads_step _ _ _ _ _ _ Hp Hs) as [-> Hp'].
  rewrite IH; [done|]. simpl.
  apply Forall_insert; done.
Qed.

(** X8: [/latest] and [/images/<filename>] never change the
    upload folder or the register, for any file name, served in turn or
    interleaved in any way. *)
Theorem reads_change_nothing ops s :
  Forall (fun o => read_only o = true) ops ->
  (serve_all ops s).2 = s /\
  forall schedule, shared (sched schedule (spawn ops s)) = s.
Proof.
  intros Hall. split.
  - revert s. induction Hall as [|o ops Ho Hall IH]; intros s; [done|].
    rewrite serve_all_snd_cons.
    destruct o as [e request| |name]; [done| |].
    + rewrite serve_latest. apply IH.
    + rewrite serve_image. apply IH.
  - intros schedule. rewrite reads_sched; [done|].
    unfold spawn. simpl. apply Forall_fmap.
    eapply Forall_impl; [exact Hall|]. intros o Ho. by apply reads_view.
Qed.

Lemma reads_change_nothing_witness :
  let s := (serve (Upload (calm noon) (multipart "a.jpg" abc)) (boot ∅)).2 in
  (serve_all [Latest; Image "image_20240101_120000.jpg"; Image ".."] s).2 = s /\
  forall schedule,
    shared (sched schedule
              (spawn [Latest; Image "image_20240101_120000.jpg"; Image ".."] s))
    = s.
Proof.
  intros s.
  apply (reads_change_nothing
           [Latest; Image "image_20240101_120000.jpg"; Image ".."] s).
  repeat constructor.
Defined.

Lemma avoids_try {R} e p (q : prog R) h :
  avoids e p q -> (forall x, avoids e p (h x)) -> avoids e p (try_except q h).
Proof.
  induction q as [r|x|k IH|path k IH|path data k IH|path k IH|fl k IH|fl v k IH];
    simpl; try done; eauto; intros [? ?] ?; split; eauto.
Qed.

Lemma avoids_upload_body e p request :
  blob_path (key e) <> p -> avoids e p (upload_body request).
Proof.
  intros Hne.
  unfold upload_body, store_image, getitem, index, b64decode.
  repeat (case_match; simpl; try done).
  all: repeat (intros; simpl;
               try match goal with
                   | |- context [io_result ?r] => is_var r; destruct r
                   end;
               try case_match; try split); try done.
Qed.

Lemma avoids_view o p : elsewhere_than p o -> avoids (op_env o) p (op_view o).
Proof.
  intros Ho. unfold op_view, dispatch. apply avoids_try; [|done].
  destruct o as [e request| |name].
  - apply avoids_try; [by apply avoids_upload_body|done].
  - simpl. intros v. by destruct (truthy v).
  - unfold get_image, send_from_directory. case_match; simpl; [|done].
    intros r. by destruct r.
Qed.

Lemma avoids_step {R} e p (q q' : prog R) s s' ev :
  avoids e p q -> step e q s = Some (ev, q', s') ->
  avoids e p q' /\ disk s' !! p = disk s !! p.
Proof.
  destruct q; simpl; try done.
  - intros Ha [= <- <- <-]. done.
  - intros [Hne Ha] Hs. destruct (fault e); injection Hs as <- <- <-;
      (split; [done|]); simpl; try done; unfold truncate; by rewrite lookup_insert_ne.
  - intros [Hne Ha] Hs. destruct (fault e); injection Hs as <- <- <-;
      (split; [done|]); simpl; unfold overlay; by rewrite lookup_insert_ne.
  - intros Ha [= <- <- <-]. done.
  - intros Ha [= <- <- <-]. done.
  - intros Ha [= <- <- <-]. done.
Qed.

Lemma avoids_sched schedule c p :
  Forall (fun th => avoids th.1 p th.2) (threads c) ->
  disk (shared (sched schedule c)) !! p = disk (shared c) !! p.
Proof.
  revert c. induction schedule as [|i l IH]; intros c Hall; [done|].
  simpl. fold (sched l).
  unfold sched_step.
  destruct (threads c !! i) as [[e q]|] eqn:Hi; [|by apply IH].
  destruct (step e q (shared c)) as [[[ev q'] s']|] eqn:Hs; [|by apply IH].
  assert (Hq : avoids e p q).
  { rewrite Forall_forall in Hall. apply (Hall (e, q)).
    by eapply list_elem_of_lookup_2. }
  destruct (avoids_step _ _ _ _ _ _ _ Hq Hs) as [Hq' Hd].
  rewrite IH; [done|]. simpl.
  apply Forall_insert; done.
Qed.

(** X9: handlers running concurrently, their file and register
    operations interleaved in any way, never touch the file of a second
    other than the one their own clock reads: whatever the upload folder
    holds for the second of [d] is still there, and still what
    [/images/<key of d>] returns, after any schedule of requests none of
    which is an upload stamped in that second. *)
Theorem frame_survives_interleaving d ops s schedule :
  valid_datetime d ->
  Forall (other_second d) ops ->
  let name := image_name (strftime d) in
  let s' := shared (sched schedule (spawn ops s)) in
  disk s' !! blob_path name = disk s !! blob_path name /\
  (serve (Image name) s').1 = (serve (Image name) s).1.
Proof.
  intros Hv Hops name s'.
  assert (Hd : disk s' !! blob_path name = disk s !! blob_path name).
  { unfold s'. rewrite avoids_sched; [done|].
    unfold spawn. simpl. apply Forall_fmap.
    eapply Forall_impl; [exact Hops|]. intros o Ho. simpl.
    apply avoids_view. destruct o as [e r| |]; simpl; try done.
    destruct Ho as [Hv' Hne]. intros Heq. apply Hne.
    symmetry in Heq. by apply blob_path_key_inj. }
  split; [done|].
  rewrite !serve_image. unfold name. rewrite !safe_join_key. simpl.
  fold name. by rewrite Hd.
Qed.

Lemma frame_survives_interleaving_witness :
  let s := (serve (Upload (calm noon) (multipart "a.jpg" abc)) (boot ∅)).2 in
  let s' := shared (sched [0; 1; 0; 0; 1; 2; 0; 0; 0]%nat
                      (spawn [Upload (calm one_past_noon) (multipart "b.jpg" xyz);
                              Latest; Image "x"] s)) in
  disk s' !! blob_path "image_20240101_120000.jpg"
  = disk s !! blob_path "image_20240101_120000.jpg" /\
  (serve (Image "image_20240101_120000.jpg") s').1
  = (serve (Image "image_20240101_120000.jpg") s).1.
Proof.
  apply (frame_survives_interleaving noon
           [Upload (calm one_past_noon) (multipart "b.jpg" xyz); Latest; Image "x"]
           _ [0; 1; 0; 0; 1; 2; 0; 0; 0]%nat).
  - unfold valid_datetime. simpl. lia.
  - repeat constructor; simpl; try lia.
    intros (_ & _ & _ & _ & _ & H). discriminate H.
Defined.

(** * Beyond the claims: the base64 form field *)

Example enc_abc : b64encode abc = "QUJD". Proof. reflexivity. Qed.

Example enc_a : b64encode [Byte.x41] = "QQ==". Proof. reflexivity. Qed.

Example enc_ab : b64encode [Byte.x41; Byte.x42] = "QUI=". Proof. reflexivity. Qed.

Lemma below_forall (n : nat) (P : N -> bool) :
  forallb P (map N.of_nat (seq 0 n)) = true ->
  forall v, (v < N.of_nat n)%N -> P v = true.
Proof.
  intros H v Hv. rewrite forallb_forall in H. apply H.
  rewrite <- (N2Nat.id v). apply in_map, in_seq. lia.
Qed.

Lemma sextet_ok_all v : (v < 64)%N -> sextet_ok v = true.
Proof. apply (below_forall 64). by vm_compute. Qed.

Lemma pair_ok_all b1 b2 : (b1 < 256)%N -> (b2 < 256)%N -> pair_ok b1 b2 = true.
Proof.
  intros H1 H2.
  assert (H : forall a, (a < 256)%N ->
            (fun a => forallb (pair_ok a) (map N.of_nat (seq 0 256))) a = true).
  { apply (below_forall 256). by vm_compute. }
  specialize (H b1 H1). simpl in H.
  by apply (below_forall 256 (pair_ok b1)).
Qed.

Lemma uchar_to_N b : Base64.uchar (Byte.to_N b) = b.
Proof. by destruct b. Qed.

Lemma byte_below b : (Byte.to_N b < 256)%N.
Proof. by destruct b. Qed.

Lemma list_ind3 {A} (P : list A -> Prop) :
  P [] -> (forall a, P [a]) -> (forall a b, P [a; b]) ->
  (forall a b c l, P l -> P (a :: b :: c :: l)) ->
  forall l, P l.
Proof.
  intros H0 H1 H2 H3.
  assert (H : forall l, P l /\ (forall a, P (a :: l)) /\ (forall a b, P (a :: b :: l))).
  { induction l as [|x l (IH0 & IH1 & IH2)]; [by split_and!|].
    split_and!; [apply IH1 | intros a; apply IH2 | intros a b; by apply H3]. }
  intros l. apply H.
Qed.

(** One alphabet character met by the decoding loop. *)
Lemma a2b_sextet v s quad_pos leftchar pads out :
  (v < 64)%N ->
  Base64.a2b_loop (String (table_b2a v) s) quad_pos leftchar pads out =
  match quad_pos with
  | 0 => Base64.a2b_loop s 1 v 0 out
  | 1 =>
      Base64.a2b_loop s 2 (N.land v 15) 0
        (out ++ [Base64.uchar (N.lor (N.shiftl leftchar 2) (N.shiftr v 4))])
  | 2 =>
      Base64.a2b_loop s 3 (N.land v 3) 0
        (out ++ [Base64.uchar (N.lor (N.shiftl leftchar 4) (N.shiftr v 2))])
  | _ =>
      Base64.a2b_loop s 0 0%N 0
        (out ++ [Base64.uchar (N.lor (N.shiftl leftchar 6) v)])
  end.
Proof.
  intros Hv. pose proof (sextet_ok_all v Hv) as Hok. unfold sextet_ok in Hok.
  apply andb_true_iff in Hok as [Hok _]. apply andb_true_iff in Hok as [Hok _].
  apply andb_true_iff in Hok as [Ht He]. apply negb_true_iff in He.
  cbn [Base64.a2b_loop]. rewrite He.
  destruct (Base64.table_a2b (table_b2a v)) as [v'|]; [|done].
  apply N.eqb_eq in Ht. by subst.
Qed.

Lemma pair_facts b1 b2 :
  (b1 < 256)%N -> (b2 < 256)%N ->
  N.lor (N.shiftl (sextet1 b1) 2) (N.shiftr (sextet2 b1 b2) 4) = b1 /\
  N.land (sextet2 b1 b2) 15 = N.shiftr b2 4 /\
  N.lor (N.shiftl (N.shiftr b1 4) 4) (N.shiftr (sextet3 b1 b2) 2) = b1 /\
  N.land (sextet3 b1 b2) 3 = N.shiftr b2 6 /\
  N.lor (N.shiftl (N.shiftr b1 6) 6) (sextet4 b1) = b1 /\
  (sextet1 b1 < 64)%N /\ (sextet2 b1 b2 < 64)%N /\
  (sextet3 b1 b2 < 64)%N /\ (sextet4 b1 < 64)%N.
Proof.
  intros H1 H2. pose proof (pair_ok_all b1 b2 H1 H2) as H.
  unfold pair_ok in H.
  repeat (apply andb_true_iff in H as [H ?]).
  repeat match goal with
         | H : (_ =? _)%N = true |- _ => apply N.eqb_eq in H
         | H : (_ <? _)%N = true |- _ => apply N.ltb_lt in H
         end.
  by split_and!.
Qed.

(** Decoding what was encoded gives the octets back, whatever the loop
    had already produced. *)
Lemma a2b_encode data : forall lc out,
  Base64.a2b_loop (b64encode data) 0 lc 0 out = Base64.Ok (out ++ data).
Proof.
  induction data as [|b1|b1 b2|b1 b2 b3 rest IH] using list_ind3; intros lc out.
  - simpl. by rewrite app_nil_r.
  - cbn [b64encode].
    destruct (pair_facts (Byte.to_N b1) 0 (byte_below b1) eq_refl)
      as (F1 & _ & _ & _ & _ & B1 & B2 & _).
    rewrite !a2b_sextet by done. simpl.
    by rewrite F1, uchar_to_N.
  - cbn [b64encode].
    destruct (pair_facts (Byte.to_N b1) (Byte.to_N b2)
                (byte_below b1) (byte_below b2))
      as (F1 & F2 & _ & _ & _ & B1 & B2 & _).
    destruct (pair_facts (Byte.to_N b2) 0 (byte_below b2) eq_refl)
      as (_ & _ & F3 & _ & _ & _ & _ & B3 & _).
    rewrite !a2b_sextet by done. simpl.
    rewrite F1, F2, F3, !uchar_to_N. by rewrite <- app_assoc.
  - cbn [b64encode].
    destruct (pair_facts (Byte.to_N b1) (Byte.to_N b2)
                (byte_below b1) (byte_below b2))
      as (F1 & F2 & _ & _ & _ & B1 & B2 & _).
    destruct (pair_facts (Byte.to_N b2) (Byte.to_N b3)
                (byte_below b2) (byte_below b3))
      as (_ & _ & F3 & F4 & _ & _ & _ & B3 & _).
    destruct (pair_facts (Byte.to_N b3) 0 (byte_below b3) eq_refl)
      as (_ & _ & _ & _ & F5 & _ & _ & _ & B4).
    rewrite !a2b_sextet by done. cbv iota.
    rewrite F1, F2, F3, F4, F5, !uchar_to_N, IH.
    by rewrite <- !app_assoc.
Qed.

Lemma sextet_plain v :
  (v < 64)%N ->
  Ascii.eqb (table_b2a v) "," = false /\ (N_of_ascii (table_b2a v) <? 128)%N = true.
Proof.
  intros Hv. pose proof (sextet_ok_all v Hv) as Hok. unfold sextet_ok in Hok.
  apply andb_true_iff in Hok as [Hok Ha]. apply andb_true_iff in Hok as [_ Hc].
  by apply negb_true_iff in Hc.
Qed.

Lemma encode_plain data :
  Base64.is_ascii (b64encode data) = true /\
  Str.contains "," (b64encode data) = false.
Proof.
  induction data as [|b1|b1 b2|b1 b2 b3 rest [IH1 IH2]] using list_ind3.
  - done.
  - cbn [b64encode Base64.is_ascii Str.contains].
    destruct (pair_facts (Byte.to_N b1) 0 (byte_below b1) eq_refl)
      as (_ & _ & _ & _ & _ & B1 & B2 & _).
    destruct (sextet_plain _ B1) as [-> ->], (sextet_plain _ B2) as [-> ->].
    done.
  - cbn [b64encode Base64.is_ascii Str.contains].
    destruct (pair_facts (Byte.to_N b1) (Byte.to_N b2)
                (byte_below b1) (byte_below b2))
      as (_ & _ & _ & _ & _ & B1 & B2 & _).
    destruct (pair_facts (Byte.to_N b2) 0 (byte_below b2) eq_refl)
      as (_ & _ & _ & _ & _ & _ & _ & B3 & _).
    destruct (sextet_plain _ B1) as [-> ->], (sextet_plain _ B2) as [-> ->],
             (sextet_plain _ B3) as [-> ->].
    done.
  - cbn [b64encode Base64.is_ascii Str.contains].
    destruct (pair_facts (Byte.to_N b1) (Byte.to_N b2)
                (byte_below b1) (byte_below b2))
      as (_ & _ & _ & _ & _ & B1 & B2 & _).
    destruct (pair_facts (Byte.to_N b2) (Byte.to_N b3)
                (byte_below b2) (byte_below b3))
      as (_ & _ & _ & _ & _ & _ & _ & B3 & _).
    destruct (pair_facts (Byte.to_N b3) 0 (byte_below b3) eq_refl)
      as (_ & _ & _ & _ & _ & _ & _ & _ & B4).
    destruct (sextet_plain _ B1) as [-> ->], (sextet_plain _ B2) as [-> ->],
             (sextet_plain _ B3) as [-> ->], (sextet_plain _ B4) as [-> ->].
    by rewrite IH1, IH2.
Qed.

(** [base64.b64decode(base64.b64encode(data)) == data] *)
Lemma decode_encode data :
  Base64.b64decode (b64encode data) = Base64.Ok data.
Proof.
  unfold Base64.b64decode.
  rewrite (proj1 (encode_plain data)). apply (a2b_encode data 0%N []).
Qed.

Lemma split_prefix c p s :
  Str.contains c p = false ->
  Str.split c (p +:+ String c s) = p :: Str.split c s.
Proof.
  induction p as [|a p IH]; simpl.
  - intros _. change ("" +:+ String c s) with (String c s). simpl.
    by rewrite Ascii.eqb_refl.
  - destruct (Ascii.eqb a c) eqn:Ha; [done|]. intros Hp.
    change (String a p +:+ String c s) with (String a (p +:+ String c s)).
    cbn [Str.split]. by rewrite ?Ha, (IH Hp).
Qed.

Lemma form_payload_encoded data :
  form_payload (b64encode data) = b64encode data.
Proof. unfold form_payload. by rewrite (proj2 (encode_plain data)). Qed.

Lemma form_payload_data_uri prefix data :
  Str.contains "," prefix = false ->
  form_payload (prefix +:+ "," +:+ b64encode data) = b64encode data.
Proof.
  intros Hp. unfold form_payload.
  rewrite StrFacts.contains_app, Hp. simpl.
  change ("," +:+ b64encode data) with (String "," (b64encode data)).
  rewrite (split_prefix _ _ _ Hp).
  by rewrite (StrFacts.split_no_sep _ _ (proj2 (encode_plain data))).
Qed.

(** X10: for a form field holding [base64.b64encode(data)], bare
    as the test client sends it or behind a data-URI prefix that has no
    comma of its own, the text lines 49 and 50 hand to the decoder decodes
    to exactly [data], for every [data]; and whenever such an upload is
    answered 200, the file under its key holds exactly [data] and
    [/images/<key>] returns [data]. *)
Theorem encoded_field_is_stored e prefix data s v :
  Str.contains "," prefix = false ->
  v = b64encode data \/ v = prefix +:+ "," +:+ b64encode data ->
  Base64.b64decode (form_payload v) = Base64.Ok data /\
  (r_status (serve (Upload e (field_only v)) s).1 = 200 ->
   let s' := (serve (Upload e (field_only v)) s).2 in
   (serve (Upload e (field_only v)) s).1 = success (key e) (stamp e) /\
   disk s' !! blob_path (key e) = Some data /\
   serve (Image (key e)) s' = ({| r_body := Raw data; r_status := 200 |}, s')).
Proof.
  intros Hp Hv.
  assert (Hd : Base64.b64decode (form_payload v) = Base64.Ok data).
  { destruct Hv as [->| ->].
    - by rewrite form_payload_encoded, decode_encode.
    - by rewrite (form_payload_data_uri _ _ Hp), decode_encode. }
  split; [done|]. intros Hr s'. unfold s'.
  destruct (serve (Upload e (field_only v)) s) as [r s1] eqn:Hs. simpl in *.
  destruct (upload_ok _ _ _ _ _ Hs Hr) as (-> & _ & data' & Hc & Hdisk).
  assert (data' = data) as ->.
  { inversion Hc as [file Hf|v' d _ Hv' Hd']; [done|].
    injection Hv' as <-. rewrite Hd in Hd'. by injection Hd'. }
  split_and!; [done| |].
  - by rewrite Hdisk, lookup_insert_eq.
  - by rewrite serve_image, safe_join_key, Hdisk, lookup_insert_eq.
Qed.

Lemma encoded_field_is_stored_witness :
  let e := calm noon in
  let v := "data:image/jpeg;base64" +:+ "," +:+ b64encode abc in
  let s' := (serve (Upload e (field_only v)) (boot ∅)).2 in
  Base64.b64decode (form_payload v) = Base64.Ok abc /\
  (serve (Upload e (field_only v)) (boot ∅)).1 = success (key e) (stamp e) /\
  disk s' !! blob_path (key e) = Some abc /\
  serve (Image (key e)) s' = ({| r_body := Raw abc; r_status := 200 |}, s').
Proof.
  intros e v s'.
  destruct (encoded_field_is_stored e "data:image/jpeg;base64" abc (boot ∅) v)
    as [Hd Hs]; [reflexivity | right; reflexivity |].
  split; [exact Hd|]. apply Hs. reflexivity.
Defined.

(** * Beyond the claims: the test clients *)

Lemma strip_prefix_app p s : strip_prefix p (p +:+ s) = Some s.
Proof.
  induction p as [|a p IH]; [done|].
  change (String a p +:+ s) with (String a (p +:+ s)). simpl.
  by rewrite Ascii.eqb_refl.
Qed.

Lemma all_unreserved_app a b :
  all_unreserved (a +:+ b) = all_unreserved a && all_unreserved b.
Proof.
  induction a as [|x a IH]; [done|].
  change (String x a +:+ b) with (String x (a +:+ b)). simpl.
  by rewrite IH, andb_assoc.
Qed.

Lemma digit_unreserved n : unreserved (digit n) = true.
Proof.
  pose proof (digit_cases n) as H.
  repeat (apply elem_of_cons in H as [->|H]; [done|]).
  by apply elem_of_nil in H.
Qed.

Lemma strftime_unreserved d : all_unreserved (strftime d) = true.
Proof.
  unfold strftime, pad4, pad2. rewrite !all_unreserved_app.
  cbn [all_unreserved]. by rewrite !digit_unreserved.
Qed.

Lemma segment_key d : segment (image_name (strftime d)) = true.
Proof.
  unfold segment, image_name.
  rewrite !all_unreserved_app, strftime_unreserved. done.
Qed.

Lemma endswith_snoc s c : Str.endswith_char c (s +:+ String c "") = true.
Proof.
  induction s as [|a s IH]; simpl; [apply Ascii.eqb_refl|].
  change (String a s +:+ String c "") with (String a (s +:+ String c "")).
  simpl. destruct (s +:+ String c "") eqn:E; [|done].
  by destruct s.
Qed.

Lemma chop_snoc s c : chop (s +:+ String c "") = s.
Proof.
  induction s as [|a s IH]; [done|].
  change (String a s +:+ String c "") with (String a (s +:+ String c "")).
  simpl. rewrite IH. destruct (s +:+ String c "") eqn:E; [by destruct s|done].
Qed.

(** X11: both clients drop one trailing slash of the server URL,
    so that a URL given with or without it makes the same client, whose
    upload and query URLs have a single slash before [upload] and
    [latest]. *)
Theorem trailing_slash_ignored url :
  Str.endswith_char "/" url = false ->
  init (url +:+ "/") = init url /\
  v_init (url +:+ "/") = v_init url /\
  upload_url (init url) = url +:+ "/upload" /\
  latest_url (init url) = url +:+ "/latest" /\
  v_upload_url (v_init url) = url +:+ "/upload".
Proof.
  intros H. unfold init, v_init.
  rewrite (endswith_snoc url "/"), (chop_snoc url "/"), H. done.
Qed.

Lemma trailing_slash_ignored_witness :
  init "http://localhost:5002/" = init "http://localhost:5002" /\
  v_init "http://localhost:5002/" = v_init "http://localhost:5002" /\
  upload_url (init "http://localhost:5002") = "http://localhost:5002/upload" /\
  latest_url (init "http://localhost:5002") = "http://localhost:5002/latest" /\
  v_upload_url (v_init "http://localhost:5002") = "http://localhost:5002/upload".
Proof.
  apply (trailing_slash_ignored "http://localhost:5002"). reflexivity.
Defined.

Section Wire.

Variable elsewhere : method -> string -> option Response.
Variable render : body -> list byte.
Variable shown : list byte -> list (string * list byte).

Lemma http_upload origin e request s :
  http origin elsewhere POST (origin +:+ "/upload") request (Some e) s
  = (Some (serve (Upload e request) s).1, (serve (Upload e request) s).2).
Proof.
  unfold http. rewrite strip_prefix_app. simpl.
  by destruct (serve (Upload e request) s).
Qed.

Lemma http_latest origin e s :
  http origin elsewhere GET (origin +:+ "/latest") no_body (Some e) s
  = (Some (serve Latest s).1, s).
Proof.
  unfold http. rewrite strip_prefix_app. simpl. by rewrite serve_latest.
Qed.

Lemma http_image origin e d s :
  http origin elsewhere GET (origin +:+ "/images/" +:+ image_name (strftime d))
    no_body (Some e) s
  = (Some (serve (Image (image_name (strftime d))) s).1, s).
Proof.
  unfold http. rewrite strip_prefix_app.
  assert (Hne : String.eqb ("/images/" +:+ image_name (strftime d)) "/latest"
                = false) by done.
  rewrite Hne, strip_prefix_app, segment_key. by rewrite serve_image.
Qed.

Lemma http_down origin m url request s :
  http origin elsewhere m url request None s = (None, s).
Proof. done. Qed.

Lemma http_get_state origin url request link s :
  (http origin elsewhere GET url request link s).2 = s.
Proof.
  unfold http. destruct link as [e|]; [|done].
  destruct (strip_prefix origin url) as [path|]; [|done].
  destruct (String.eqb path "/latest"); [by rewrite serve_latest|].
  destruct (strip_prefix "/images/" path) as [name|]; [|done].
  destruct (segment name); [|done]. by rewrite serve_image.
Qed.

Lemma with_server_same w : with_server (server w) w = w.
Proof. by destruct w. Qed.

Lemma init_plain origin :
  Str.endswith_char "/" origin = false ->
  init origin = {| server_url := origin;
                   upload_url := origin +:+ "/upload";
                   latest_url := origin +:+ "/latest";
                   images_url := origin +:+ "/images" |}.
Proof. intros H. unfold init. by rewrite H. Qed.

Lemma post_image_stored origin e request w :
  Str.endswith_char "/" origin = false ->
  r_status (serve (Upload e request) (server w)).1 = 200 ->
  post_image origin elsewhere (init origin) request (Some e) w
  = (Some [("status", JStr "success"); ("filename", JStr (key e));
           ("timestamp", JStr (stamp e))],
     with_server (serve (Upload e request) (server w)).2 w).
Proof.
  intros Ho Hr. rewrite (init_plain _ Ho).
  unfold post_image. cbn [upload_url]. rewrite http_upload.
  destruct (serve (Upload e request) (server w)) as [r s1] eqn:Hs.
  by destruct (upload_ok _ _ _ _ _ Hs Hr) as (-> & _).
Qed.

Lemma info_after_upload origin l w d :
  Str.endswith_char "/" origin = false ->
  latest_image (server w) =
    {| filename := Some (image_name (strftime d));
       timestamp := Some (strftime d) |} ->
  get_latest_image_info origin elsewhere (init origin) (Some l) w
  = (Some [("filename", JStr (image_name (strftime d)));
           ("timestamp", JStr (strftime d));
           ("url", JStr ("/images/" +:+ image_name (strftime d)))], w).
Proof.
  intros Ho Hl. rewrite (init_plain _ Ho).
  unfold get_latest_image_info. cbn [latest_url].
  rewrite http_latest, serve_latest, Hl, with_server_same. done.
Qed.

Lemma info_state origin self link w :
  (get_latest_image_info origin elsewhere self link w).2 = w.
Proof.
  unfold get_latest_image_info.
  pose proof (http_get_state origin (latest_url self) no_body link (server w)) as H.
  destruct (http _ _ _ _ _ _ _) as [r s']. simpl in *. subst s'.
  by destruct w.
Qed.

(** The files Pillow saves leave every other file alone. *)
Lemma put_all_other (files : list (string * list byte)) l p :
  p ∉ files.*1 ->
  fold_left (fun l file => put file l) files l !! p = l !! p.
Proof.
  revert l. induction files as [|[q d] files IH]; intros l Hp; [done|].
  simpl in *. apply not_elem_of_cons in Hp as [Hne Hp].
  rewrite IH by done. unfold put. simpl. by rewrite lookup_insert_ne.
Qed.

Lemma download_latest origin l1 l2 now w d data :
  Str.endswith_char "/" origin = false ->
  latest_image (server w) =
    {| filename := Some (image_name (strftime d));
       timestamp := Some (strftime d) |} ->
  disk (server w) !! blob_path (image_name (strftime d)) = Some data ->
  download_and_show_image origin elsewhere render shown (init origin) None
    (Some l1) (Some l2) now w
  = (true,
     with_local
       (fold_left (fun l file => put file l) (shown data)
          (<["downloaded_" +:+ strftime now +:+ ".jpg" := data]> (local w)))
       w).
Proof.
  intros Ho Hl Hd. unfold download_and_show_image.
  rewrite (info_after_upload _ _ _ _ Ho Hl).
  rewrite (init_plain _ Ho). cbn [server_url].
  change (format_json (dict_get "url" _))
    with ("/images/" +:+ image_name (strftime d)).
  rewrite http_image, serve_image, safe_join_key, Hd, with_server_same. done.
Qed.

(** What a download leaves behind when the register names a stored
    frame. *)
Lemma downloaded origin l1 l2 now w d data :
  Str.endswith_char "/" origin = false ->
  latest_image (server w) =
    {| filename := Some (image_name (strftime d));
       timestamp := Some (strftime d) |} ->
  disk (server w) !! blob_path (image_name (strftime d)) = Some data ->
  "downloaded_" +:+ strftime now +:+ ".jpg" ∉ (shown data).*1 ->
  let r := download_and_show_image origin elsewhere render shown (init origin)
             None (Some l1) (Some l2) now w in
  r.1 = true /\
  local r.2 !! ("downloaded_" +:+ strftime now +:+ ".jpg") = Some data /\
  (forall p, p <> "downloaded_" +:+ strftime now +:+ ".jpg" ->
             p ∉ (shown data).*1 -> local r.2 !! p = local w !! p) /\
  server r.2 = server w.
Proof.
  intros Ho Hl Hd Hfresh r. unfold r.
  rewrite (download_latest _ _ _ _ _ d data Ho Hl Hd).
  cbn [fst snd local server with_local]. split_and!; try done.
  - by rewrite put_all_other, lookup_insert_eq.
  - intros p Hp Hq. by rewrite put_all_other, lookup_insert_ne.
Qed.

(** X12: [upload_image_binary] of an existing file, against the
    server of [app.py] with its file operations succeeding, returns the
    server's acknowledgement (status, filename, timestamp), and a
    following [download_and_show_image()] returns [True] and leaves
    exactly the uploaded bytes in [downloaded_<client time>.jpg]; no other
    local file changes, the temporary files Pillow saves for the viewer
    apart (whose names [mkstemp] keeps different from the download's). *)
Theorem binary_upload_then_download origin path data e l1 l2 now w :
  Str.endswith_char "/" origin = false ->
  local w !! path = Some data ->
  basename path <> "" ->
  fault e = NoFault ->
  valid_datetime now ->
  "downloaded_" +:+ strftime now +:+ ".jpg" ∉ (shown data).*1 ->
  let self := init origin in
  let r1 := upload_image_binary origin elsewhere self path (Some e) w in
  let r2 := download_and_show_image origin elsewhere render shown self None
              (Some l1) (Some l2) now r1.2 in
  r1.1 = Some [("status", JStr "success"); ("filename", JStr (key e));
               ("timestamp", JStr (stamp e))] /\
  r2.1 = true /\
  local r2.2 !! ("downloaded_" +:+ strftime now +:+ ".jpg") = Some data /\
  (forall p, p <> "downloaded_" +:+ strftime now +:+ ".jpg" ->
             p ∉ (shown data).*1 -> local r2.2 !! p = local w !! p) /\
  server r2.2 = server r1.2.
Proof.
  intros Ho Hfile Hname He _ Hfresh self r1 r2.
  pose proof (upload_multipart e (multipart (basename path) data) (server w)
                _ eq_refl Hname) as Hx.
  rewrite He in Hx. apply serve_upload in Hx.
  assert (Hr1 : r1 = (Some [("status", JStr "success"); ("filename", JStr (key e));
                            ("timestamp", JStr (stamp e))],
                      with_server
                        (serve (Upload e (multipart (basename path) data))
                           (server w)).2 w)).
  { unfold r1, upload_image_binary. rewrite Hfile.
    apply post_image_stored; [done|]. by rewrite Hx. }
  unfold r2. rewrite Hr1. cbn [fst snd]. split; [done|].
  rewrite Hx. cbn [snd].
  set (s1 := {| disk := _ |}).
  pose proof (downloaded origin l1 l2 now (with_server s1 w) (clock e) data
                Ho eq_refl) as H.
  cbv zeta in H. cbn [local server with_server disk s1] in H.
  apply H; [|done]. by rewrite lookup_insert_eq.
Qed.

(** X13: the same through [upload_image_base64]: whenever it
    returns a result, that is, the server answered 200, the result is the
    server's acknowledgement, and a following [download_and_show_image()]
    returns [True] and leaves in [downloaded_<client time>.jpg], byte for
    byte, the file the client encoded and posted. *)
Theorem base64_upload_then_download origin path data link l1 l2 now w result :
  Str.endswith_char "/" origin = false ->
  local w !! path = Some data ->
  valid_datetime now ->
  "downloaded_" +:+ strftime now +:+ ".jpg" ∉ (shown data).*1 ->
  let self := init origin in
  let r1 := upload_image_base64 origin elsewhere self path link w in
  let r2 := download_and_show_image origin elsewhere render shown self None
              (Some l1) (Some l2) now r1.2 in
  r1.1 = Some result ->
  (exists e,
     link = Some e /\
     result = [("status", JStr "success"); ("filename", JStr (key e));
               ("timestamp", JStr (stamp e))]) /\
  r2.1 = true /\
  local r2.2 !! ("downloaded_" +:+ strftime now +:+ ".jpg") = Some data /\
  (forall p, p <> "downloaded_" +:+ strftime now +:+ ".jpg" ->
             p ∉ (shown data).*1 -> local r2.2 !! p = local w !! p) /\
  server r2.2 = server r1.2.
Proof.
  intros Ho Hfile _ Hfresh self r1 r2 Hres.
  unfold r2, r1, self in *. clear r1 r2 self.
  unfold upload_image_base64 in *. rewrite Hfile in *.
  unfold post_image in *. rewrite (init_plain _ Ho) in Hres |- *.
  cbn [upload_url] in *.
  destruct link as [e|]; [|by rewrite http_down in Hres].
  rewrite http_upload in *. cbn [fst snd] in *.
  destruct (serve (Upload e (field_only (b64encode data))) (server w))
    as [r s1] eqn:Hs.
  cbn [fst snd] in *.
  destruct (Nat.eqb (r_status r) 200) eqn:Hr; [|done].
  apply Nat.eqb_eq in Hr.
  destruct (upload_ok _ _ _ _ _ Hs Hr) as (-> & Hl & data' & Hc & Hd).
  assert (data' = data) as ->.
  { inversion Hc as [file Hf|v d _ Hv Hd']; [done|].
    injection Hv as <-. rewrite form_payload_encoded, decode_encode in Hd'.
    by injection Hd'. }
  injection Hres as <-. split; [by eauto|].
  rewrite <- (init_plain _ Ho).
  pose proof (downloaded origin l1 l2 now (with_server s1 w) (clock e) data
                Ho Hl) as H.
  cbv zeta in H. cbn [local server with_server] in H.
  apply H; [|done]. by rewrite Hd, lookup_insert_eq.
Qed.

(** X14: [download_and_show_image], for any URL or none and any
    answers, changes nothing on the server, never sleeps, changes no local
    file other than [downloaded_<client time>.jpg] and the temporary files
    Pillow saves for the viewer, and changes nothing at all when it
    returns [False]. *)
Theorem download_writes_one_file origin self image_url link1 link2 now w :
  valid_datetime now ->
  let r := download_and_show_image origin elsewhere render shown self image_url
             link1 link2 now w in
  server r.2 = server w /\
  naps r.2 = naps w /\
  (r.1 = false -> r.2 = w) /\
  forall p, p <> "downloaded_" +:+ strftime now +:+ ".jpg" ->
            (forall content, p ∉ (shown content).*1) ->
            local r.2 !! p = local w !! p.
Proof.
  intros _ r. unfold r, download_and_show_image.
  assert (Hgo : forall url,
    let r := (let '(response, s') :=
                http origin elsewhere GET url no_body link2 (server w) in
              match response with
              | Some r =>
                  if Nat.eqb (r_status r) 200 then
                    (true,
                     with_local
                       (fold_left (fun l file => put file l)
                          (shown (content render r))
                          (local
                             (with_local
                                (put ("downloaded_" +:+ strftime now +:+ ".jpg",
                                      content render r)
                                   (local (with_server s' w)))
                                (with_server s' w))))
                       (with_local
                          (put ("downloaded_" +:+ strftime now +:+ ".jpg",
                                content render r)
                             (local (with_server s' w)))
                          (with_server s' w)))
                  else (false, with_server s' w)
              | None => (false, with_server s' w)
              end) in
    server r.2 = server w /\ naps r.2 = naps w /\ (r.1 = false -> r.2 = w) /\
    forall p, p <> "downloaded_" +:+ strftime now +:+ ".jpg" ->
              (forall content, p ∉ (shown content).*1) ->
              local r.2 !! p = local w !! p).
  { intros url.
    pose proof (http_get_state origin url no_body link2 (server w)) as H.
    destruct (http _ _ _ _ _ _ _) as [resp s']. simpl in H. subst s'.
    rewrite with_server_same.
    destruct resp as [resp|]; [|done].
    destruct (Nat.eqb (r_status resp) 200); [|done].
    simpl. split_and!; try done.
    intros p Hp Hq. rewrite put_all_other by done.
    unfold put. simpl. by rewrite lookup_insert_ne. }
  destruct image_url as [url|]; [apply Hgo|].
  pose proof (info_state origin self link1 w) as Hi.
  destruct (get_latest_image_info origin elsewhere self link1 w) as [info w1].
  simpl in Hi. subst w1.
  destruct info as [info|]; [apply Hgo|done].
Qed.

(** X15: with no URL given, [download_and_show_image] returns
    [False] and writes nothing when the query does not get through or
    the server has no image yet (its [/latest] answers 404). *)
Theorem download_without_image origin link1 link2 now w :
  Str.endswith_char "/" origin = false ->
  link1 = None \/ filename (latest_image (server w)) = None ->
  download_and_show_image origin elsewhere render shown (init origin) None
    link1 link2 now w = (false, w).
Proof.
  intros Ho H. unfold download_and_show_image, get_latest_image_info.
  rewrite (init_plain _ Ho). cbn [latest_url].
  destruct link1 as [e|].
  - destruct H as [H|H]; [done|].
    rewrite http_latest, serve_latest, H. simpl. by rewrite with_server_same.
  - rewrite http_down. by rewrite with_server_same.
Qed.

Lemma binary_ok origin path data e w :
  Str.endswith_char "/" origin = false ->
  local w !! path = Some data ->
  basename path <> "" ->
  fault e = NoFault ->
  upload_image_binary origin elsewhere (init origin) path (Some e) w
  = (Some [("status", JStr "success"); ("filename", JStr (key e));
           ("timestamp", JStr (stamp e))],
     with_server
       (serve (Upload e (multipart (basename path) data)) (server w)).2 w).
Proof.
  intros Ho Hfile Hname He. unfold upload_image_binary. rewrite Hfile.
  apply post_image_stored; [done|].
  pose proof (upload_multipart e (multipart (basename path) data) (server w)
                _ eq_refl Hname) as Hx.
  rewrite He in Hx. apply serve_upload in Hx. by rewrite Hx.
Qed.

Lemma simulate_loop_smooth origin path data interval count links todo :
  Str.endswith_char "/" origin = false ->
  basename path <> "" ->
  (0 <= interval)%Z ->
  forall i w,
    local w !! path = Some data ->
    Z.of_nat (i + todo) = count ->
    smooth links (i + todo) ->
    simulate_loop origin elsewhere (init origin) path interval count links
      i todo w
    = (Returned true,
       {| server := (serve_all (turns (multipart (basename path) data) links
                                   i todo) (server w)).2;
          local := local w;
          naps := naps w ++ replicate (todo - 1) (QArith_base.inject_Z interval) |}).
Proof.
  intros Ho Hname Hint.
  induction todo as [|todo IH]; intros i w Hfile Hcount Hsm.
  - simpl. rewrite app_nil_r. by destruct w.
  - destruct (Hsm i ltac:(lia)) as (e & Hl & He).
    cbn [simulate_loop]. rewrite Hl.
    rewrite (binary_ok _ _ _ _ _ Ho Hfile Hname He). cbn [truthy_dict].
    unfold turns. cbn [seq map]. rewrite Hl. cbn [default].
    rewrite serve_all_snd_cons.
    destruct (Z.of_nat i <? count - 1)%Z eqn:Hlast.
    + assert ((interval <? 0)%Z = false) as -> by lia.
      rewrite IH; [| done | lia | by replace (S i + todo) with (i + S todo) by lia].
      cbn [server local naps nap with_server]. f_equal. f_equal.
      destruct todo as [|todo]; [lia|]. simpl. by rewrite Nat.sub_0_r, <- app_assoc.
    + rewrite IH; [| done | lia | by replace (S i + todo) with (i + S todo) by lia].
      cbn [server local naps with_server].
      destruct todo as [|todo]; [done|lia].
Qed.

Lemma binary_down origin self path w :
  upload_image_binary origin elsewhere self path None w = (None, w).
Proof.
  unfold upload_image_binary, post_image.
  destruct (local w !! path); [|done].
  rewrite http_down. by rewrite with_server_same.
Qed.

Lemma simulate_loop_down origin path data interval count links k todo :
  Str.endswith_char "/" origin = false ->
  basename path <> "" ->
  (0 <= interval)%Z ->
  smooth links k -> links k = None ->
  forall i w,
    local w !! path = Some data ->
    i <= k < i + todo ->
    (Z.of_nat (i + todo) <= count)%Z ->
    simulate_loop origin elsewhere (init origin) path interval count links
      i todo w
    = (Returned false,
       {| server := (serve_all (turns (multipart (basename path) data) links
                                   i (k - i)) (server w)).2;
          local := local w;
          naps := naps w ++ replicate (k - i) (QArith_base.inject_Z interval) |}).
Proof.
  intros Ho Hname Hint Hsm Hk.
  induction todo as [|todo IH]; intros i w Hfile Hik Hcount; [lia|].
  cbn [simulate_loop].
  destruct (decide (i = k)) as [->|Hne].
  - rewrite Hk, binary_down. cbn [truthy_dict].
    rewrite Nat.sub_diag. simpl. rewrite app_nil_r. by destruct w.
  - destruct (Hsm i ltac:(lia)) as (e & Hl & He). rewrite Hl.
    rewrite (binary_ok _ _ _ _ _ Ho Hfile Hname He). cbn [truthy_dict].
    assert ((Z.of_nat i <? count - 1)%Z = true) as -> by lia.
    assert ((interval <? 0)%Z = false) as -> by lia.
    rewrite IH; [| done | lia | lia].
    cbn [server local naps nap with_server].
    replace (k - i) with (S (k - S i)) by lia.
    unfold turns. cbn [seq map replicate]. rewrite Hl. cbn [default].
    rewrite serve_all_snd_cons. by rewrite <- app_assoc.
Qed.

(** X16: [simulate_esp32s3] with a non-negative interval, when
    every upload gets through: it returns [True], the server has served
    [count] uploads of the file in turn, and the client has slept
    [interval] seconds [count - 1] times, not after the last upload
    ([count <= 0] uploads nothing and returns [True]). *)
Theorem simulate_completes origin path data interval count links w :
  Str.endswith_char "/" origin = false ->
  local w !! path = Some data ->
  basename path <> "" ->
  (0 <= interval)%Z ->
  smooth links (Z.to_nat count) ->
  simulate_esp32s3 origin elsewhere (init origin) path interval count links w
  = (Returned true,
     {| server := (serve_all (turns (multipart (basename path) data) links
                                 0 (Z.to_nat count)) (server w)).2;
        local := local w;
        naps := naps w ++ replicate (Z.to_nat count - 1) (QArith_base.inject_Z interval) |}).
Proof.
  intros Ho Hfile Hname Hint Hsm. unfold simulate_esp32s3. rewrite Hfile.
  destruct (decide (0 <= count)%Z) as [Hc|Hc].
  - apply (simulate_loop_smooth _ _ data); try done. simpl. lia.
  - replace (Z.to_nat count) with 0 by lia. simpl.
    rewrite app_nil_r. by destruct w.
Qed.

(** X17: [simulate_esp32s3] stops at the first upload that does
    not get through: if request [k] is the first to fail, it returns
    [False] after exactly [k] uploads and [k] sleeps, and sends nothing
    more. *)
Theorem simulate_stops origin path data interval count links k w :
  Str.endswith_char "/" origin = false ->
  local w !! path = Some data ->
  basename path <> "" ->
  (0 <= interval)%Z ->
  (Z.of_nat k < count)%Z ->
  smooth links k -> links k = None ->
  simulate_esp32s3 origin elsewhere (init origin) path interval count links w
  = (Returned false,
     {| server := (serve_all (turns (multipart (basename path) data) links
                                 0 k) (server w)).2;
        local := local w;
        naps := naps w ++ replicate k (QArith_base.inject_Z interval) |}).
Proof.
  intros Ho Hfile Hname Hint Hk Hsm Hdown. unfold simulate_esp32s3.
  rewrite Hfile.
  rewrite (simulate_loop_down _ _ data _ _ _ k); try done; try lia.
  by rewrite Nat.sub_0_r.
Qed.

(** X18: a negative interval with [count >= 2]: the first upload
    is sent and stored, then [time.sleep] raises, outside any [try], and
    the exception leaves [simulate_esp32s3]. *)
Theorem simulate_negative_interval origin path data interval count links e w :
  Str.endswith_char "/" origin = false ->
  local w !! path = Some data ->
  basename path <> "" ->
  (interval < 0)%Z ->
  (2 <= count)%Z ->
  links 0 = Some e -> fault e = NoFault ->
  simulate_esp32s3 origin elsewhere (init origin) path interval count links w
  = (Raised (Exc "sleep length must be non-negative"),
     with_server
       (serve (Upload e (multipart (basename path) data)) (server w)).2 w).
Proof.
  intros Ho Hfile Hname Hint Hc Hl He. unfold simulate_esp32s3. rewrite Hfile.
  destruct (Z.to_nat count) as [|todo] eqn:Hn; [lia|].
  cbn [simulate_loop]. rewrite Hl.
  rewrite (binary_ok _ _ _ _ _ Ho Hfile Hname He). cbn [truthy_dict].
  assert ((Z.of_nat 0 <? count - 1)%Z = true) as -> by (apply Z.ltb_lt; lia).
  by assert ((interval <? 0)%Z = true) as -> by (apply Z.ltb_lt; lia).
Qed.

Lemma readable_le video frames : readable video frames <= length frames.
Proof.
  induction frames as [|n rest IH]; simpl; [done|].
  destruct (video n); lia.
Qed.

Lemma upload_frame_counts origin self frame temp link w :
  let '(ok, self', w') := upload_frame origin elsewhere self frame temp link w in
  frames_uploaded self' + upload_errors self'
    = S (frames_uploaded self + upload_errors self) /\
  frames_total self' = frames_total self /\
  running self' = running self /\
  v_upload_url self' = v_upload_url self /\
  naps w' = naps w /\
  (local w !! temp = None -> local w' = local w).
Proof.
  unfold upload_frame.
  destruct (http _ _ _ _ _ _ _) as [response s'].
  cbn [naps local with_local with_server].
  split_and!; try done.
  - unfold count_upload. simpl. destruct response as [r|]; [|lia].
    destruct (Nat.eqb (r_status r) 200); lia.
  - intros Hfresh. rewrite insert_insert_eq, delete_insert_eq.
    by apply delete_id.
Qed.

(** What the wait after a frame does to the client's surroundings. *)
Lemma wait_naps realtime waits total i w :
  let w' := if realtime && Nat.ltb i (total - 1)
            then if above_zero (max0 (waits i)) then nap (max0 (waits i)) w else w
            else w in
  server w' = server w /\ local w' = local w /\
  exists extra,
    naps w' = naps w ++ extra /\
    Forall (fun t => above_zero t = true) extra /\
    (realtime = false -> extra = []).
Proof.
  destruct (realtime && Nat.ltb i (total - 1)) eqn:Hr; simpl.
  - destruct (above_zero (max0 (waits i))) eqn:Hp; simpl.
    + split_and!; try done. exists [max0 (waits i)]. split_and!; try done.
      * by constructor.
      * intros ->. done.
    + split_and!; try done. exists []. by rewrite app_nil_r.
  - split_and!; try done. exists []. by rewrite app_nil_r.
Qed.

Lemma upload_frames_counts origin video temp links realtime waits total frames :
  forall i self w,
    running self = true ->
    (forall j, local w !! temp j = None) ->
    let '(self', w') :=
      upload_frames origin elsewhere video temp links realtime waits total
        frames i self w in
    frames_uploaded self' + upload_errors self'
      = frames_uploaded self + upload_errors self + length frames /\
    frames_total self' = frames_total self /\
    running self' = true /\
    local w' = local w /\
    exists extra,
      naps w' = naps w ++ extra /\
      Forall (fun t => above_zero t = true) extra /\
      (realtime = false -> extra = []).
Proof.
  induction frames as [|n rest IH]; intros i self w Hrun Hfresh.
  - simpl. split_and!; try (done || lia). exists []. by rewrite app_nil_r.
  - cbn [upload_frames]. rewrite Hrun. cbn [negb].
    destruct (video n) as [frame|].
    + pose proof (upload_frame_counts origin self frame (temp i) (links i) w) as Hu.
      destruct (upload_frame origin elsewhere self frame (temp i) (links i) w)
        as [[ok self1] w1].
      destruct Hu as (Hc & Ht & Hr & _ & Hn & Hl).
      specialize (Hl (Hfresh i)).
      pose proof (wait_naps realtime waits total i w1) as Hw. cbv zeta in Hw.
      set (w2 := if realtime && Nat.ltb i (total - 1) then _ else _) in *.
      destruct Hw as (_ & Hl2 & extra1 & Hn1 & Hp1 & Hoff1).
      specialize (IH (S i) self1 w2). rewrite Hr in IH.
      specialize (IH Hrun).
      destruct (upload_frames origin elsewhere video temp links realtime waits
                  total rest (S i) self1 w2) as [self3 w3].
      destruct IH as (Hc3 & Ht3 & Hr3 & Hl3 & extra2 & Hn3 & Hp3 & Hoff3).
      { intros j. by rewrite Hl2, Hl. }
      simpl. split_and!; try (congruence || lia).
      exists (extra1 ++ extra2). split_and!.
      * by rewrite Hn3, Hn1, Hn, app_assoc.
      * by apply Forall_app.
      * intros Hoff. by rewrite (Hoff1 Hoff), (Hoff3 Hoff).
    + set (self1 := {| v_server_url := _ |}).
      specialize (IH (S i) self1 w eq_refl Hfresh).
      destruct (upload_frames origin elsewhere video temp links realtime waits
                  total rest (S i) self1 w) as [self2 w2].
      destruct IH as (Hc2 & Ht2 & Hr2 & Hl2 & Hx).
      simpl in *. split_and!; (done || lia).
Qed.

(** X19: whatever the video and the network do, when
    [process_video] returns every scheduled frame has been counted once,
    [frames_uploaded + upload_errors = frames_total], the result is
    [True] exactly when at least one frame was uploaded, every temporary
    file is gone again, and [time.sleep] was only ever called with a
    positive length, and not at all unless [realtime] is set. *)
Theorem process_video_counters origin self video temp links realtime waits
    frames w :
  (forall j, local w !! temp j = None) ->
  let '(result, self', w') :=
    process_video origin elsewhere self video temp links realtime waits
      frames w in
  frames_total self' = length frames /\
  frames_uploaded self' + upload_errors self' = frames_total self' /\
  (result = true <-> 0 < frames_uploaded self') /\
  local w' = local w /\
  exists extra,
    naps w' = naps w ++ extra /\
    Forall (fun t => above_zero t = true) extra /\
    (realtime = false -> extra = []).
Proof.
  intros Hfresh. unfold process_video.
  set (self0 := {| v_server_url := _ |}).
  pose proof (upload_frames_counts origin video temp links realtime waits
                (length frames) frames 0 self0 w eq_refl Hfresh) as H.
  destruct (upload_frames origin elsewhere video temp links realtime waits
              (length frames) frames 0 self0 w) as [self' w'].
  destruct H as (Hc & Ht & Hr & Hl & Hx). simpl in *.
  split_and!; try (done || lia).
  split; [intros ?%Nat.ltb_lt; lia | intros ?; apply Nat.ltb_lt; lia].
Qed.

Lemma upload_frame_ok origin self frame temp e w :
  v_upload_url self = origin +:+ "/upload" ->
  fault e = NoFault ->
  local w !! temp = None ->
  upload_frame origin elsewhere self frame temp (Some e) w
  = (true, count_upload true self,
     with_server
       (serve (Upload e (multipart "frame.jpg" frame)) (server w)).2 w).
Proof.
  intros Hurl He Hfresh. destruct w as [sv lc np]. simpl in Hfresh.
  pose proof (upload_multipart e (multipart "frame.jpg" frame) sv
                _ eq_refl ltac:(done)) as Hx.
  rewrite He in Hx. apply serve_upload in Hx.
  unfold upload_frame.
  cbn [local with_local server with_server naps].
  rewrite Hurl, lookup_insert_eq. cbn [default]. change (id frame) with frame.
  rewrite http_upload, Hx. cbn [fst snd r_status success jsonify Nat.eqb].
  rewrite insert_insert_eq, delete_insert_eq, delete_id by done.
  done.
Qed.

Lemma upload_frames_smooth origin video temp links realtime waits total frames :
  forall i self w,
    running self = true ->
    v_upload_url self = origin +:+ "/upload" ->
    (forall j, local w !! temp j = None) ->
    smooth links (i + length frames) ->
    let '(self', w') :=
      upload_frames origin elsewhere video temp links realtime waits total
        frames i self w in
    frames_uploaded self' = frames_uploaded self + readable video frames /\
    upload_errors self'
      = upload_errors self + (length frames - readable video frames) /\
    server w'
      = (serve_all (frame_turns video links frames i) (server w)).2 /\
    local w' = local w.
Proof.
  induction frames as [|n rest IH]; intros i self w Hrun Hurl Hfresh Hsm.
  - simpl. split_and!; (done || lia).
  - cbn [upload_frames frame_turns]. rewrite Hrun. cbn [negb].
    pose proof (readable_le video rest) as Hlen.
    destruct (video n) as [frame|] eqn:Hv.
    + destruct (Hsm i ltac:(simpl; lia)) as (e & Hl & He). rewrite Hl.
      rewrite (upload_frame_ok _ _ _ _ _ _ Hurl He (Hfresh i)).
      set (w1 := with_server _ w).
      pose proof (wait_naps realtime waits total i w1) as Hw. cbv zeta in Hw.
      set (w2 := if realtime && Nat.ltb i (total - 1) then _ else _) in *.
      destruct Hw as (Hs2 & Hl2 & _).
      specialize (IH (S i) (count_upload true self) w2 Hrun Hurl).
      destruct (upload_frames _ _ _ _ _ _ _ _ _ _ _ _) as [self3 w3].
      destruct IH as (Hu & He3 & Hs3 & Hl3).
      { intros j. by rewrite Hl2. }
      { intros j Hj. apply Hsm. simpl. lia. }
      cbn [default]. rewrite serve_all_snd_cons.
      cbn [readable]. rewrite Hv.
      simpl in *. split_and!; try lia.
      * by rewrite Hs3, Hs2.
      * by rewrite Hl3, Hl2.
    + set (self1 := {| v_server_url := _ |}).
      specialize (IH (S i) self1 w eq_refl Hurl Hfresh).
      destruct (upload_frames _ _ _ _ _ _ _ _ _ _ _ _) as [self2 w2].
      destruct IH as (Hu & He2 & Hs2 & Hl2).
      { intros j Hj. apply Hsm. simpl. lia. }
      cbn [readable]. rewrite Hv.
      simpl in *. split_and!; try done; lia.
Qed.

(** X20: against the server of [app.py], with every request
    getting through, [process_video] uploads every frame the video
    delivers and counts an error for each frame it cannot read; the server
    has served one multipart upload named [frame.jpg] per readable frame,
    in order. *)
Theorem process_video_uploads origin video temp links realtime waits frames w :
  Str.endswith_char "/" origin = false ->
  (forall j, local w !! temp j = None) ->
  smooth links (length frames) ->
  let '(result, self', w') :=
    process_video origin elsewhere (v_init origin) video temp links realtime
      waits frames w in
  frames_uploaded self' = readable video frames /\
  upload_errors self' = length frames - readable video frames /\
  (result = true <-> 0 < readable video frames) /\
  server w' = (serve_all (frame_turns video links frames 0) (server w)).2 /\
  local w' = local w.
Proof.
  intros Ho Hfresh Hsm. unfold process_video, v_init. rewrite Ho.
  cbn [v_server_url v_upload_url].
  set (self0 := {| v_server_url := _ |}).
  pose proof (upload_frames_smooth origin video temp links realtime waits
                (length frames) frames 0 self0 w eq_refl eq_refl Hfresh Hsm)
    as H.
  destruct (upload_frames _ _ _ _ _ _ _ _ _ _ _ _) as [self' w'].
  destruct H as (Hu & He & Hs & Hl). simpl in *.
  split_and!; try done.
  rewrite Hu. split; [intros ?%Nat.ltb_lt; lia | intros ?; by apply Nat.ltb_lt].
Qed.

End Wire.

Lemma binary_upload_then_download_witness :
  let self := init localhost in
  let r1 := upload_image_binary localhost nowhere self "cat.jpg"
              (Some (calm noon)) desk in
  let r2 := download_and_show_image localhost nowhere blank preview self None
              (Some quiet) (Some quiet) one_past_noon r1.2 in
  r1.1 = Some [("status", JStr "success");
               ("filename", JStr "image_20240101_120000.jpg");
               ("timestamp", JStr "20240101_120000")] /\
  r2.1 = true /\
  local r2.2 !! "downloaded_20240101_120001.jpg" = Some abc /\
  (forall p, p <> "downloaded_20240101_120001.jpg" ->
             p ∉ (preview abc).*1 -> local r2.2 !! p = local desk !! p) /\
  server r2.2 = server r1.2.
Proof.
  apply (binary_upload_then_download nowhere blank preview localhost "cat.jpg"
           abc (calm noon) quiet quiet one_past_noon desk);
    [reflexivity | reflexivity | discriminate | reflexivity
    | unfold valid_datetime; simpl; lia |].
  intros [H|H]%elem_of_cons; [discriminate H | by apply elem_of_nil in H].
Defined.

Lemma base64_upload_then_download_witness :
  let self := init localhost in
  let r1 := upload_image_base64 localhost nowhere self "cat.jpg"
              (Some (calm noon)) desk in
  let r2 := download_and_show_image localhost nowhere blank preview self None
              (Some quiet) (Some quiet) one_past_noon r1.2 in
  (exists e,
     Some (calm noon) = Some e /\
     [("status", JStr "success");
      ("filename", JStr "image_20240101_120000.jpg");
      ("timestamp", JStr "20240101_120000")]
     = [("status", JStr "success"); ("filename", JStr (key e));
        ("timestamp", JStr (stamp e))]) /\
  r2.1 = true /\
  local r2.2 !! "downloaded_20240101_120001.jpg" = Some abc /\
  (forall p, p <> "downloaded_20240101_120001.jpg" ->
             p ∉ (preview abc).*1 -> local r2.2 !! p = local desk !! p) /\
  server r2.2 = server r1.2.
Proof.
  apply (base64_upload_then_download nowhere blank preview localhost "cat.jpg"
           abc (Some (calm noon)) quiet quiet one_past_noon desk
           [("status", JStr "success");
            ("filename", JStr "image_20240101_120000.jpg");
            ("timestamp", JStr "20240101_120000")]);
    [reflexivity | reflexivity | unfold valid_datetime; simpl; lia
    | | reflexivity].
  intros [H|H]%elem_of_cons; [discriminate H | by apply elem_of_nil in H].
Defined.

Lemma download_writes_one_file_witness :
  let s := (serve (Upload (calm noon) (multipart "a.jpg" abc)) (boot ∅)).2 in
  let w := {| server := s; local := {[ "cat.jpg" := abc ]}; naps := [] |} in
  let r := download_and_show_image localhost nowhere blank preview
             (init localhost) None (Some quiet) (Some quiet) one_past_noon w in
  server r.2 = server w /\
  naps r.2 = naps w /\
  (r.1 = false -> r.2 = w) /\
  forall p, p <> "downloaded_20240101_120001.jpg" ->
            (forall content, p ∉ (preview content).*1) ->
            local r.2 !! p = local w !! p.
Proof.
  intros s w.
  apply (download_writes_one_file nowhere blank preview localhost
           (init localhost) None (Some quiet) (Some quiet) one_past_noon w).
  unfold valid_datetime. simpl. lia.
Defined.

Lemma download_without_image_witness :
  download_and_show_image localhost nowhere blank preview (init localhost)
    None (Some quiet) (Some quiet) noon desk = (false, desk).
Proof.
  apply (download_without_image nowhere blank preview localhost (Some quiet) (Some quiet)
           noon desk); [reflexivity|].
  right. reflexivity.
Defined.

Lemma simulate_completes_witness :
  simulate_esp32s3 localhost nowhere (init localhost) "cat.jpg" 10 3 steady desk
  = (Returned true,
     {| server := (serve_all (turns (multipart "cat.jpg" abc) steady 0 3)
                     (boot ∅)).2;
        local := local desk;
        naps := [QArith_base.inject_Z 10; QArith_base.inject_Z 10] |}).
Proof.
  apply (simulate_completes nowhere localhost "cat.jpg" abc 10 3 steady desk);
    [reflexivity | reflexivity | discriminate | lia |].
  intros i _. exists (calm noon). split; reflexivity.
Defined.

Lemma simulate_stops_witness :
  simulate_esp32s3 localhost nowhere (init localhost) "cat.jpg" 10 5
    breaks_at_2 desk
  = (Returned false,
     {| server := (serve_all (turns (multipart "cat.jpg" abc) breaks_at_2 0 2)
                     (boot ∅)).2;
        local := local desk;
        naps := [QArith_base.inject_Z 10; QArith_base.inject_Z 10] |}).
Proof.
  apply (simulate_stops nowhere localhost "cat.jpg" abc 10 5 breaks_at_2 2 desk);
    [reflexivity | reflexivity | discriminate | lia | lia | | reflexivity].
  intros i Hi. exists (calm noon). split; [|reflexivity].
  unfold breaks_at_2. destruct i as [|[|i]]; [reflexivity | reflexivity | lia].
Defined.

Lemma simulate_negative_interval_witness :
  simulate_esp32s3 localhost nowhere (init localhost) "cat.jpg" (-1) 3
    steady desk
  = (Raised (Exc "sleep length must be non-negative"),
     with_server
       (serve (Upload (calm noon) (multipart "cat.jpg" abc)) (boot ∅)).2 desk).
Proof.
  apply (simulate_negative_interval nowhere localhost "cat.jpg" abc (-1) 3
           steady (calm noon) desk);
    [reflexivity | reflexivity | discriminate | lia | lia
    | reflexivity | reflexivity].
Defined.

Lemma process_video_counters_witness :
  let '(result, self', w') :=
    process_video localhost nowhere (v_init localhost) clip tmp breaks_at_2
      true lag [0; 1; 2; 3]%N desk in
  frames_total self' = 4 /\
  frames_uploaded self' + upload_errors self' = frames_total self' /\
  (result = true <-> 0 < frames_uploaded self') /\
  local w' = local desk /\
  exists extra,
    naps w' = naps desk ++ extra /\
    Forall (fun t => above_zero t = true) extra /\
    (true = false -> extra = []).
Proof.
  apply (process_video_counters nowhere localhost (v_init localhost) clip tmp
           breaks_at_2 true lag [0; 1; 2; 3]%N desk).
  intros j. unfold desk, tmp. simpl. apply lookup_singleton_ne.
  discriminate.
Defined.

Lemma process_video_uploads_witness :
  let '(result, self', w') :=
    process_video localhost nowhere (v_init localhost) clip tmp steady
      true lag [0; 1; 2; 3]%N desk in
  frames_uploaded self' = 3 /\
  upload_errors self' = 1 /\
  (result = true <-> 0 < 3) /\
  server w'
  = (serve_all (frame_turns clip steady [0; 1; 2; 3]%N 0) (boot ∅)).2 /\
  local w' = local desk.
Proof.
  apply (process_video_uploads nowhere localhost clip tmp steady true lag
           [0; 1; 2; 3]%N desk); [reflexivity | |].
  - intros j. unfold desk, tmp. simpl. apply lookup_singleton_ne.
    discriminate.
  - intros i _. exists (calm noon). split; reflexivity.
Defined.

(** In realtime mode the client sleeps only when it is ahead of the
    video, after a frame it uploaded, and never after the last one. *)
Example realtime_naps :
  naps (process_video localhost nowhere (v_init localhost) clip tmp steady
          true lag [0; 1; 2; 3]%N desk).2
  = [QArith_base.Qmake 1 4].
Proof. reflexivity. Qed.
